(** * Audio forensic detector: event detection and classification pipeline

    A shallow embedding of [scripts/audio_analysis.py] (the Basic report,
    [analyze_audio]) and [scripts/live_audio_analysis.py] (the Extended
    report, [generate_live_analysis]).

    Numbers.  Samples, energies and spectral features are floating-point
    values in the scripts.  Every finite float is a rational, and the
    pipeline only adds, multiplies, divides and compares them, so they are
    modelled as [Q] with exact arithmetic; comparisons against the literals
    of the scripts ([0.2], [0.1], [0.15], [300], ...) are comparisons against
    the same rationals.  [round] and [log10] stay abstract.

    Exceptions.  Both entry points wrap their body in
    [try: ... except Exception as e:] and turn any exception into an error
    report; the body is therefore written in an error monad and the error
    report is the [Raise] case. *)

From Stdlib Require Import QArith Qabs Lqa Lia List String Bool Arith ZArith.
From Stdlib Require Import Sorted Permutation.
From stdpp Require Import base list.
Import ListNotations.

(** ** Exceptions and the error monad *)

Inductive exn : Type :=
| ValueError
| IndexError.

Inductive result (A : Type) : Type :=
| Ok (a : A)
| Raise (e : exn).

Arguments Ok {A} a.
Arguments Raise {A} e.

Definition bind {A B : Type} (r : result A) (k : A -> result B) : result B :=
  match r with
  | Ok a => k a
  | Raise e => Raise e
  end.

Notation "'let*' x ':=' r 'in' k" := (bind r (fun x => k))
  (at level 10, x name, r at level 100, k at level 200).

Fixpoint mapM {A B : Type} (f : A -> result B) (l : list A) : result (list B) :=
  match l with
  | [] => Ok []
  | a :: l' =>
      let* b := f a in
      let* bs := mapM f l' in
      Ok (b :: bs)
  end.

(** ** Comparisons on rationals, as booleans *)

Definition Qltb (a b : Q) : bool := negb (Qle_bool b a).

(** ** Classifier *)

Module Classifier.

Local Open Scope string_scope.
Local Open Scope Q_scope.

(** [audio_analysis.py], lines 92-100: the label is chosen from the
    spectral centroid at the peak alone. *)
Definition classify_basic (freq_at_peak : Q) : string :=
  if Qltb freq_at_peak 300 then "Low Frequency/Bass"
  else if Qltb freq_at_peak 1000 then "Voice/Mid Range"
  else if Qltb freq_at_peak 4000 then "High Voice/Instruments"
  else "High Frequency/Noise".

(** [live_audio_analysis.py], lines 152-167: an [if]/[elif] chain over
    centroid, rolloff and zero-crossing rate, giving label and confidence. *)
Definition classify_extended (centroid rolloff zcr_val : Q) : string * Q :=
  if Qltb centroid 1000 && Qltb rolloff 2000 then
    ("Low Frequency/Bass", 0.8)
  else if Qltb centroid 3000 && Qltb zcr_val 0.1 then
    ("Voice/Speech", 0.9)
  else if Qltb 4000 centroid && Qltb 8000 rolloff then
    ("High Frequency/Noise", 0.7)
  else if Qltb 0.15 zcr_val then
    ("Percussive/Transient", 0.85)
  else
    ("Mixed/Complex", 0.6).

(** The Basic policy as the specification words it: four frequency bands. *)
Inductive basic_rule (f : Q) : string -> Prop :=
| basic_bass : f < 300 -> basic_rule f "Low Frequency/Bass"
| basic_mid : 300 <= f -> f < 1000 -> basic_rule f "Voice/Mid Range"
| basic_high : 1000 <= f -> f < 4000 -> basic_rule f "High Voice/Instruments"
| basic_noise : 4000 <= f -> basic_rule f "High Frequency/Noise".

(** The Extended policy as the specification words it: an ordered list of
    (predicate, label, confidence) rules, the first match wins, with a
    default when none matches. *)
Definition extended_rules : list ((Q -> Q -> Q -> bool) * (string * Q)) :=
  [ (fun c r _ => Qltb c 1000 && Qltb r 2000, ("Low Frequency/Bass", 0.8));
    (fun c _ z => Qltb c 3000 && Qltb z 0.1, ("Voice/Speech", 0.9));
    (fun c r _ => Qltb 4000 c && Qltb 8000 r, ("High Frequency/Noise", 0.7));
    (fun _ _ z => Qltb 0.15 z, ("Percussive/Transient", 0.85)) ].

Fixpoint first_match (rules : list ((Q -> Q -> Q -> bool) * (string * Q)))
    (default : string * Q) (c r z : Q) : string * Q :=
  match rules with
  | [] => default
  | (p, out) :: rules' => if p c r z then out else first_match rules' default c r z
  end.

(** The same policy as a relation: each rule fires only when all the rules
    before it have failed. *)
Inductive extended_rule (c r z : Q) : string -> Q -> Prop :=
| ext_bass :
    c < 1000 -> r < 2000 ->
    extended_rule c r z "Low Frequency/Bass" 0.8
| ext_voice :
    ~ (c < 1000 /\ r < 2000) ->
    c < 3000 -> z < 0.1 ->
    extended_rule c r z "Voice/Speech" 0.9
| ext_noise :
    ~ (c < 1000 /\ r < 2000) -> ~ (c < 3000 /\ z < 0.1) ->
    4000 < c -> 8000 < r ->
    extended_rule c r z "High Frequency/Noise" 0.7
| ext_percussive :
    ~ (c < 1000 /\ r < 2000) -> ~ (c < 3000 /\ z < 0.1) ->
    ~ (4000 < c /\ 8000 < r) ->
    0.15 < z ->
    extended_rule c r z "Percussive/Transient" 0.85
| ext_mixed :
    ~ (c < 1000 /\ r < 2000) -> ~ (c < 3000 /\ z < 0.1) ->
    ~ (4000 < c /\ 8000 < r) -> ~ 0.15 < z ->
    extended_rule c r z "Mixed/Complex" 0.6.

End Classifier.

(** ** Python and NumPy primitives used by the scripts *)

Module Py.

Local Open Scope Q_scope.

(** [range(0, stop, step)] for a positive [step]: CPython stores the length
    [(stop - 1) // step + 1] (0 when [stop] is 0) and yields [k * step]. *)
Definition range_len (stop step : nat) : nat :=
  if (stop =? 0)%nat then 0%nat else S ((stop - 1) / step).

Definition range_items (stop step : nat) : list nat :=
  map (fun k => (k * step)%nat) (seq 0 (range_len stop step)).

(** [range(0, stop, step)]: a zero step raises [ValueError]. *)
Definition range (stop step : nat) : result (list nat) :=
  if (step =? 0)%nat then Raise ValueError else Ok (range_items stop step).

(** [l[i:i+n]]: slices never raise, they are clipped at the end of [l]. *)
Definition slice {A : Type} (l : list A) (i n : nat) : list A :=
  firstn n (skipn i l).

(** [l[:n]]. *)
Definition prefix {A : Type} (l : list A) (n : nat) : list A := firstn n l.

(** The builtin [sum]: a left fold from 0. *)
Definition sum (l : list Q) : Q := fold_left Qplus l 0.

Definition Qmaxb (a b : Q) : Q := if Qltb a b then b else a.

(** [np.max]: raises [ValueError] on a zero-size array. *)
Definition np_max (l : list Q) : result Q :=
  match l with
  | [] => Raise ValueError
  | x :: l' => Ok (fold_left Qmaxb l' x)
  end.

(** [a[i]] for a signed index: a negative index counts from the end, and
    an index outside the array raises [IndexError]. *)
Definition index {A : Type} (l : list A) (i : Z) : result A :=
  let n := Z.of_nat (length l) in
  let j := if (i <? 0)%Z then (i + n)%Z else i in
  if ((j <? 0) || (n <=? j))%Z then Raise IndexError
  else match nth_error l (Z.to_nat j) with
       | Some a => Ok a
       | None => Raise IndexError
       end.

(** [np.linspace(0, stop, n)]: [n] evenly spaced points, both ends
    included; a single point is [0]. *)
Definition linspace (stop : Q) (n : nat) : list Q :=
  map (fun k => inject_Z (Z.of_nat k) * (stop / inject_Z (Z.of_nat (n - 1))))
      (seq 0 n).

End Py.

(** ** Frame Energy Extractor *)

Module FrameEnergy.

Local Open Scope Q_scope.

Definition frame_length : nat := 1024.
Definition hop_length : nat := 512.

(** [sum(abs(y[i:i+frame_length]**2))]. *)
Definition frame_sum (frame : nat) (y : list Q) (i : nat) : Q :=
  Py.sum (map (fun s => Qabs (s * s)) (Py.slice y i frame)).

(** [[sum(abs(y[i:i+frame_length]**2)) for i in range(0, len(y), hop_length)]]
    ([audio_analysis.py] lines 60-63, [live_audio_analysis.py] lines
    104-107); the step of the range is a positive constant in both. *)
Definition frame_energy_with (frame hop : nat) (y : list Q) : list Q :=
  map (frame_sum frame y) (Py.range_items (length y) hop).

Definition frame_energy (y : list Q) : list Q :=
  frame_energy_with frame_length hop_length y.

(** [energy / np.max(energy) if np.max(energy) > 0 else energy]
    ([audio_analysis.py] line 66; the [if] statement of
    [live_audio_analysis.py] lines 110-111 computes the same).  The
    condition is evaluated first, so an empty envelope raises. *)
Definition normalize (energy : list Q) : result (list Q) :=
  let* m := Py.np_max energy in
  if Qltb 0 m then
    let* d := Py.np_max energy in
    Ok (map (fun e => e / d) energy)
  else Ok energy.

(** The energy of the frame at offset [i * hop], as the specification words
    it: the sum of the squared samples of [y] over
    [[i * hop, min (i * hop + frame) (length y))]. *)
Definition window_energy (frame hop : nat) (y : list Q) (i : nat) : Q :=
  let a := (i * hop)%nat in
  let b := Nat.min (a + frame) (length y) in
  Py.sum (map (fun k => nth k y 0 * nth k y 0) (seq a (b - a))).

(** [m] is the global maximum of [l]. *)
Definition is_maximum (m : Q) (l : list Q) : Prop :=
  In m l /\ Forall (fun e => e <= m) l.

End FrameEnergy.

(** ** Peak Picker: [scipy.signal.find_peaks(energy, height, distance)] *)

(** Both scripts pick the peaks with
    [find_peaks(energy, height=0.2, distance=5)].  The routine is SciPy's;
    what follows transcribes the three steps it runs for these arguments:
    [_local_maxima_1d] (all local maxima, flat ones included),
    the height condition, and [_select_by_peak_distance]. *)

Module Scipy.

Local Open Scope Q_scope.

(** Inner loop of [_local_maxima_1d]:
    [while i_ahead < i_max and x[i_ahead] == x[i]: i_ahead += 1]. *)
Fixpoint plateau_end (fuel : nat) (x : list Q) (i_max i i_ahead : nat) : nat :=
  match fuel with
  | O => i_ahead
  | S fuel' =>
      if (i_ahead <? i_max)%nat && Qeq_bool (nth i_ahead x 0) (nth i x 0)
      then plateau_end fuel' x i_max i (S i_ahead)
      else i_ahead
  end.

(** Outer loop of [_local_maxima_1d], from sample [i]: a rising edge at [i]
    followed by a run of equal samples and then a falling edge is a peak; the
    midpoint [(left_edge + right_edge) // 2] of the run is recorded and the
    scan resumes after the run. *)
Fixpoint local_maxima_from (fuel : nat) (x : list Q) (i_max i : nat) : list nat :=
  match fuel with
  | O => []
  | S fuel' =>
      if (i <? i_max)%nat then
        if Qltb (nth (i - 1) x 0) (nth i x 0) then
          let i_ahead := plateau_end (length x) x i_max i (i + 1) in
          if Qltb (nth i_ahead x 0) (nth i x 0) then
            ((i + (i_ahead - 1)) / 2)%nat
              :: local_maxima_from fuel' x i_max (i_ahead + 1)
          else local_maxima_from fuel' x i_max (i + 1)
        else local_maxima_from fuel' x i_max (i + 1)
      else []
  end.

(** [_local_maxima_1d(x)]: the scan starts at sample 1 and stops before the
    last sample ([i_max = len(x) - 1]); neither end can be a peak. *)
Definition local_maxima_1d (x : list Q) : list nat :=
  local_maxima_from (length x) x (length x - 1) 1.

(** [a[keep]] for a boolean mask [keep]. *)
Definition mask_select {A : Type} (l : list A) (keep : list bool) : list A :=
  map fst (List.filter (fun p => snd p) (combine l keep)).

(** [_select_by_property(peak_heights, hmin, None)]: [hmin <= peak_heights]. *)
Definition select_by_height (heights : list Q) (hmin : Q) : list bool :=
  map (fun h => Qle_bool hmin h) heights.

(** [np.argsort(priority)]: the positions [0 .. n-1] in ascending order of
    priority.  Positions of equal priority stay in index order, which is
    what NumPy's sort does on the short arrays that reach its insertion
    sort; NumPy documents no order of ties beyond that. *)
Fixpoint argsort_insert (priority : list Q) (j : nat) (l : list nat) : list nat :=
  match l with
  | [] => [j]
  | k :: l' =>
      if Qle_bool (nth j priority 0) (nth k priority 0) then j :: l
      else k :: argsort_insert priority j l'
  end.

Definition argsort (priority : list Q) : list nat :=
  fold_right (argsort_insert priority) [] (seq 0 (length priority)).

(** [k = j - 1; while 0 <= k and peaks[j] - peaks[k] < distance:
    keep[k] = 0; k -= 1].  [k1] is [k + 1]. *)
Fixpoint flag_earlier (peaks : list nat) (distance : nat) (j k1 : nat)
    (keep : list bool) : list bool :=
  match k1 with
  | O => keep
  | S k =>
      if (Z.of_nat (nth j peaks 0%nat) - Z.of_nat (nth k peaks 0%nat)
            <? Z.of_nat distance)%Z
      then flag_earlier peaks distance j k (<[k := false]> keep)
      else keep
  end.

(** [k = j + 1; while k < peaks_size and peaks[k] - peaks[j] < distance:
    keep[k] = 0; k += 1]. *)
Fixpoint flag_later (fuel : nat) (peaks : list nat) (distance : nat) (j k : nat)
    (keep : list bool) : list bool :=
  match fuel with
  | O => keep
  | S fuel' =>
      if (k <? length peaks)%nat
         && (Z.of_nat (nth k peaks 0%nat) - Z.of_nat (nth j peaks 0%nat)
               <? Z.of_nat distance)%Z
      then flag_later fuel' peaks distance j (S k) (<[k := false]> keep)
      else keep
  end.

(** One iteration of the priority loop of [_select_by_peak_distance]: a peak
    already flagged is skipped, otherwise its neighbours closer than
    [distance] are flagged on both sides. *)
Definition suppress_around (peaks : list nat) (distance : nat)
    (keep : list bool) (j : nat) : list bool :=
  if nth j keep false then
    flag_later (length peaks) peaks distance j (S j)
      (flag_earlier peaks distance j j keep)
  else keep.

(** The priority loop over a given processing order. *)
Definition select_in_order (peaks : list nat) (distance : nat)
    (order : list nat) : list bool :=
  fold_left (suppress_around peaks distance) order
            (repeat true (length peaks)).

(** [_select_by_peak_distance(peaks, priority, distance)]: the peaks are
    visited from the highest priority down, that is [argsort(priority)] read
    backwards. *)
Definition select_by_peak_distance (peaks : list nat) (priority : list Q)
    (distance : nat) : list bool :=
  select_in_order peaks distance (rev (argsort priority)).

(** [find_peaks(x, height=height, distance=distance)[0]], for
    [distance >= 1]. *)
Definition find_peaks (x : list Q) (height : Q) (distance : nat) : list nat :=
  let peaks := local_maxima_1d x in
  let peak_heights := map (fun p => nth p x 0) peaks in
  let peaks := mask_select peaks (select_by_height peak_heights height) in
  let keep :=
    select_by_peak_distance peaks (map (fun p => nth p x 0) peaks) distance in
  mask_select peaks keep.

End Scipy.

(** ** What a peak is, in the words of the specification *)

Module PeakSpec.

Local Open Scope Q_scope.

(** Sample [p] is a strict local maximum: an interior sample strictly
    greater than both neighbours. *)
Definition strict_local_max (x : list Q) (p : nat) : Prop :=
  (1 <= p)%nat /\ (p + 1 < length x)%nat
  /\ nth (p - 1) x 0 < nth p x 0 /\ nth (p + 1) x 0 < nth p x 0.

(** Sample [p] is the midpoint (rounded down) of a flat peak: a run
    [l .. r] of equal interior samples whose two bordering samples are
    strictly lower.  A run of one sample is a strict local maximum. *)
Definition flat_peak (x : list Q) (p : nat) : Prop :=
  exists l r : nat,
    (1 <= l)%nat /\ (l <= r)%nat /\ (r + 1 < length x)%nat
    /\ p = ((l + r) / 2)%nat
    /\ (forall k, (l <= k <= r)%nat -> nth k x 0 == nth p x 0)
    /\ nth (l - 1) x 0 < nth p x 0
    /\ nth (r + 1) x 0 < nth p x 0.

(** The candidates of the distance selection: the flat peaks found whose
    value reaches [height]. *)
Definition candidates (x : list Q) (height : Q) : list nat :=
  List.filter (fun p => Qle_bool height (nth p x 0)) (Scipy.local_maxima_1d x).

(** [p] and [q] are closer than [distance] samples. *)
Definition closer_than (distance p q : nat) : Prop :=
  (Z.abs (Z.of_nat p - Z.of_nat q) < Z.of_nat distance)%Z.

(** Positions [i] and [j] of [peaks] hold distinct peaks closer than
    [distance]. *)
Definition close (peaks : list nat) (distance : nat) (i j : nat) : Prop :=
  i <> j /\ closer_than distance (nth i peaks 0%nat) (nth j peaks 0%nat).

(** The state of the priority loop of [_select_by_peak_distance] after the
    positions [done] have been visited, for a processing order sorted by
    [R]: a visited position still kept has flagged every position close to
    it, and every flagged position was flagged by a kept position that
    precedes it in the order. *)
Definition loop_inv (peaks : list nat) (distance : nat)
    (R : nat -> nat -> Prop) (done : list nat) (keep : list bool) : Prop :=
  length keep = length peaks
  /\ (forall j i, In j done -> (j < length peaks)%nat ->
        (i < length peaks)%nat ->
        nth j keep false = true -> close peaks distance i j ->
        nth i keep false = false)
  /\ (forall i, (i < length peaks)%nat -> nth i keep false = false ->
        exists j, In j done /\ (j < length peaks)%nat
                  /\ nth j keep false = true
                  /\ close peaks distance i j /\ R j i).

(** Position [a] comes before position [b] in ascending priority order,
    equal priorities being ordered by position. *)
Definition ascends (priority : list Q) (a b : nat) : Prop :=
  nth a priority 0 < nth b priority 0
  \/ (nth a priority 0 == nth b priority 0 /\ (a < b)%nat).

End PeakSpec.

(** ** Report Assembler and the two entry points *)

Module Report.

Import Classifier.
Local Open Scope Q_scope.

(** A decibel value: [-np.inf] or a finite number. *)
Inductive decibel : Type :=
| NegInf
| Finite (q : Q).

(** The numerical routines that stay abstract: the builtin
    [round(x, ndigits)], [np.log10] and [np.mean]. *)
Record Numerics : Type := {
  round : Q -> nat -> Q;
  log10 : Q -> Q;
  np_mean : list Q -> Q
}.

(** What the scripts obtain from NumPy's FFT and from librosa for the
    waveform at hand. *)
Record Transform : Type := {
  magnitude : list Q;           (* np.abs(np.fft.fft(y)) *)
  spectral_centroids : list Q;  (* librosa.feature.spectral_centroid(y, sr)[0] *)
  spectral_rolloff : list Q;    (* librosa.feature.spectral_rolloff(y, sr)[0] *)
  zcr : list Q;                 (* librosa.feature.zero_crossing_rate(y)[0] *)
  rms : Q                       (* np.mean(librosa.feature.rms(y)) *)
}.

(** An entry of ["soundEvents"] in the Basic report. *)
Record SoundEvent : Type := {
  time : Q;
  frequency : Q;
  amplitude : Q;
  type : string;
  decibels : decibel
}.

(** An entry of ["soundEvents"] in the Extended report. *)
Record LiveSoundEvent : Type := {
  live_time : Q;
  live_frequency : Q;
  live_amplitude : Q;
  live_type : string;
  confidence : Q;
  live_decibels : decibel;
  live_spectral_rolloff : Q;
  zero_crossing_rate : Q
}.

(** An entry of ["frequencySpectrum"]. *)
Record SpectrumPoint : Type := {
  point_frequency : Q;
  point_magnitude : Q
}.

(** The success report; [E] is the event record of the variant. *)
Record AnalysisResult (E : Type) : Type := {
  duration : Q;
  sampleRate : positive;
  averageRMS : Q;
  detectedSounds : nat;
  dominantFrequency : Q;
  maxDecibels : decibel;
  soundEvents : list E;
  frequencySpectrum : list SpectrumPoint
}.

Arguments duration {E} _.
Arguments sampleRate {E} _.
Arguments averageRMS {E} _.
Arguments detectedSounds {E} _.
Arguments dominantFrequency {E} _.
Arguments maxDecibels {E} _.
Arguments soundEvents {E} _.
Arguments frequencySpectrum {E} _.

(** [l.sort(key=..., reverse=True)]: Python's sort is stable, also with
    [reverse=True], so the outcome is the one descending arrangement that
    keeps equal keys in their original order. *)
Fixpoint insert_desc {A : Type} (key : A -> Q) (a : A) (l : list A) : list A :=
  match l with
  | [] => [a]
  | b :: l' =>
      if Qltb (key a) (key b) then b :: insert_desc key a l' else a :: l
  end.

Definition sort_desc {A : Type} (key : A -> Q) (l : list A) : list A :=
  fold_right (insert_desc key) [] l.

(** The Feature Aligner's index: [min(peak, len(spectral_centroids) - 1)]. *)
Definition frame_index (peak : nat) (centroids : list Q) : Z :=
  Z.min (Z.of_nat peak) (Z.of_nat (length centroids) - 1).

(** [zcr[frame_idx] if frame_idx < len(zcr) else 0]. *)
Definition zcr_at (zcr : list Q) (frame_idx : Z) : result Q :=
  if (frame_idx <? Z.of_nat (length zcr))%Z then Py.index zcr frame_idx
  else Ok 0.

(** The Feature Aligner of [analyze_audio] (line 89):
    [spectral_centroids[min(peak, len(spectral_centroids)-1)]]. *)
Definition align_basic (T : Transform) (peak : nat) : result Q :=
  Py.index (spectral_centroids T) (frame_index peak (spectral_centroids T)).

(** The Feature Aligner of [generate_live_analysis] (lines 147-150): one
    index, computed from the centroid array, is used for all three
    features. *)
Definition align_live (T : Transform) (peak : nat) : result (Q * Q * Q) :=
  let frame_idx := frame_index peak (spectral_centroids T) in
  let* centroid := Py.index (spectral_centroids T) frame_idx in
  let* rolloff := Py.index (spectral_rolloff T) frame_idx in
  let* zcr_val := zcr_at (zcr T) frame_idx in
  Ok (centroid, rolloff, zcr_val).

Section Assembler.

Context (N : Numerics).

Definition round_decibel (d : decibel) (ndigits : nat) : decibel :=
  match d with
  | NegInf => NegInf
  | Finite q => Finite (round N q ndigits)
  end.

(** [20 * np.log10(a) if a > 0 else -np.inf]. *)
Definition to_decibels (a : Q) : decibel :=
  if Qltb 0 a then Finite (20 * log10 N a) else NegInf.

(** [(peak * hop_length) / sr]. *)
Definition time_pos (peak : nat) (sr : positive) : Q :=
  inject_Z (Z.of_nat (peak * FrameEnergy.hop_length)) / inject_Z (Z.pos sr).

(** Body of the event loop of [analyze_audio] (lines 87-108). *)
Definition basic_event (sr : positive) (energy : list Q) (T : Transform)
    (peak : nat) : result SoundEvent :=
  let* freq_at_peak := align_basic T peak in
  let* amplitude := Py.index energy (Z.of_nat peak) in
  Ok {| time := round N (time_pos peak sr) 2;
        frequency := round N freq_at_peak 1;
        amplitude := round N amplitude 3;
        type := classify_basic freq_at_peak;
        decibels := round_decibel (to_decibels amplitude) 1 |}.

(** Body of the event loop of [generate_live_analysis] (lines 143-181). *)
Definition live_event (sr : positive) (energy : list Q) (T : Transform)
    (peak : nat) : result LiveSoundEvent :=
  let* features := align_live T peak in
  let '(centroid, rolloff, zcr_val) := features in
  let (sound_type, conf) := classify_extended centroid rolloff zcr_val in
  let* amplitude := Py.index energy (Z.of_nat peak) in
  Ok {| live_time := round N (time_pos peak sr) 2;
        live_frequency := round N centroid 1;
        live_amplitude := round N amplitude 3;
        live_type := sound_type;
        confidence := conf;
        live_decibels := round_decibel (to_decibels amplitude) 1;
        live_spectral_rolloff := round N rolloff 1;
        zero_crossing_rate := round N zcr_val 3 |}.

(** One entry of the spectrum:
    [{"frequency": round(frequency[i], 1),
      "magnitude": round(magnitude[i] / np.max(magnitude), 3)
                   if np.max(magnitude) > 0 else 0}]. *)
Definition spectrum_point (mag freq : list Q) (i : nat) : result SpectrumPoint :=
  let* f := Py.index freq (Z.of_nat i) in
  let* m := Py.np_max mag in
  let* v :=
    if Qltb 0 m then
      let* mi := Py.index mag (Z.of_nat i) in
      let* d := Py.np_max mag in
      Ok (round N (mi / d) 3)
    else Ok 0 in
  Ok {| point_frequency := round N f 1; point_magnitude := v |}.

(** [for i in ...: if i < len(magnitude): freq_spectrum.append(...)]. *)
Fixpoint spectrum_loop (mag freq : list Q) (idxs : list nat)
    : result (list SpectrumPoint) :=
  match idxs with
  | [] => Ok []
  | i :: idxs' =>
      if (i <? length mag)%nat then
        let* p := spectrum_point mag freq i in
        let* ps := spectrum_loop mag freq idxs' in
        Ok (p :: ps)
      else spectrum_loop mag freq idxs'
  end.

(** [audio_analysis.py] lines 114-121: the step is
    [len(frequency) // 100]. *)
Definition freq_spectrum_basic (sr : positive) (mag : list Q)
    : result (list SpectrumPoint) :=
  let freq := Py.linspace (inject_Z (Z.pos sr)) (length mag) in
  let freq_step := (length freq / 100)%nat in
  let* idxs := Py.range (length freq / 2) freq_step in
  spectrum_loop mag freq idxs.

(** [live_audio_analysis.py] lines 200-207: the step is
    [max(1, len(frequency) // 200)]. *)
Definition freq_spectrum_live (sr : positive) (mag : list Q)
    : result (list SpectrumPoint) :=
  let freq := Py.linspace (inject_Z (Z.pos sr)) (length mag) in
  let freq_step := (length freq / 200)%nat in
  let* idxs := Py.range (length freq / 2) (Nat.max 1 freq_step) in
  spectrum_loop mag freq idxs.

(** [20 * np.log10(np.max(np.abs(y))) if np.max(np.abs(y)) > 0
    else -np.inf]. *)
Definition max_decibels (y : list Q) : result decibel :=
  let* m := Py.np_max (map Qabs y) in
  if Qltb 0 m then
    let* m' := Py.np_max (map Qabs y) in
    Ok (Finite (20 * log10 N m'))
  else Ok NegInf.

(** [librosa.get_duration(y=y, sr=sr)]: the number of samples over the
    sample rate. *)
Definition get_duration (y : list Q) (sr : positive) : Q :=
  inject_Z (Z.of_nat (length y)) / inject_Z (Z.pos sr).

(** The sound events of the Basic report, before ranking. *)
Definition basic_events (sr : positive) (energy : list Q) (T : Transform)
    (peaks : list nat) : result (list SoundEvent) :=
  mapM (basic_event sr energy T) peaks.

(** The sound events of the Extended report, before ranking. *)
Definition live_events (sr : positive) (energy : list Q) (T : Transform)
    (peaks : list nat) : result (list LiveSoundEvent) :=
  mapM (live_event sr energy T) peaks.

(** [analyze_audio] from the decoded waveform [y], [sr] on
    ([audio_analysis.py] lines 51-138); [Raise] is the error report of the
    [except] clause. *)
Definition analyze_audio (y : list Q) (sr : positive) (T : Transform)
    : result (AnalysisResult SoundEvent) :=
  let energy := FrameEnergy.frame_energy y in
  let* energy := FrameEnergy.normalize energy in
  let peaks := Scipy.find_peaks energy 0.2 5 in
  let num_sounds := length peaks in
  let dur := get_duration y sr in
  let dominant_frequency := np_mean N (spectral_centroids T) in
  let* max_db := max_decibels y in
  let* sound_events := basic_events sr energy T peaks in
  let sound_events := sort_desc amplitude sound_events in
  let* freq_spectrum := freq_spectrum_basic sr (magnitude T) in
  Ok {| duration := round N dur 2;
        sampleRate := sr;
        averageRMS := round N (rms T) 6;
        detectedSounds := num_sounds;
        dominantFrequency := round N dominant_frequency 1;
        maxDecibels := round_decibel max_db 1;
        soundEvents := Py.prefix sound_events 10;
        frequencySpectrum := freq_spectrum |}.

(** [generate_live_analysis] from the decoded waveform on
    ([live_audio_analysis.py] lines 83-242), without the visualization
    payloads. *)
Definition generate_live_analysis (y : list Q) (sr : positive) (T : Transform)
    : result (AnalysisResult LiveSoundEvent) :=
  let energy := FrameEnergy.frame_energy y in
  let* energy := FrameEnergy.normalize energy in
  let peaks := Scipy.find_peaks energy 0.2 5 in
  let* sound_events := live_events sr energy T peaks in
  let sound_events := sort_desc live_amplitude sound_events in
  let dur := get_duration y sr in
  let dominant_freq := np_mean N (spectral_centroids T) in
  let* max_db := max_decibels y in
  let* freq_spectrum := freq_spectrum_live sr (magnitude T) in
  Ok {| duration := round N dur 2;
        sampleRate := sr;
        averageRMS := round N (rms T) 6;
        detectedSounds := length peaks;
        dominantFrequency := round N dominant_freq 1;
        maxDecibels := round_decibel max_db 1;
        soundEvents := Py.prefix sound_events 15;
        frequencySpectrum := freq_spectrum |}.

End Assembler.

(** The spectrum entry for index [i], as the specification words it: the
    frequency of bin [i] rounded to 1 decimal, and the magnitude of bin [i]
    divided by the global maximum [m] and rounded to 3 decimals, or 0 when
    the maximum is 0. *)
Definition sampled_point (N : Numerics) (sr : positive) (mag : list Q) (m : Q)
    (i : nat) : SpectrumPoint :=
  {| point_frequency :=
       round N (nth i (Py.linspace (inject_Z (Z.pos sr)) (length mag)) 0) 1;
     point_magnitude :=
       if Qltb 0 m then round N (nth i mag 0 / m) 3 else 0 |}.

(** [out] is the top [n] of [evs] ranked by descending [key] with a stable
    sort: the first [n] entries of an arrangement of [evs] that is
    non-increasing in [key] and keeps the entries of equal key in their
    original order. *)
Definition ranked_top {A : Type} (n : nat) (key : A -> Q) (evs out : list A)
    : Prop :=
  exists sorted : list A,
    Permutation sorted evs
    /\ StronglySorted (fun a b => key b <= key a) sorted
    /\ (forall q, List.filter (fun a => Qeq_bool (key a) q) sorted
                  = List.filter (fun a => Qeq_bool (key a) q) evs)
    /\ out = firstn n sorted.

End Report.

(** ** Concrete inputs *)

Module Samples.

Import Report.
Local Open Scope Q_scope.

(** An instance of the abstract routines, to run the model on concrete
    inputs: rounding keeps the value, and [log10] and [np.mean] are
    constant.  No theorem depends on it. *)
Definition sample_numerics : Numerics :=
  {| round := fun q _ => q; log10 := fun _ => 0; np_mean := fun _ => 0 |}.

(** A transform with [n] FFT bins and [frames] feature frames. *)
Definition flat_transform (n frames : nat) : Transform :=
  {| magnitude := repeat 1 n;
     spectral_centroids := repeat 440 frames;
     spectral_rolloff := repeat 900 frames;
     zcr := repeat 0.05 frames;
     rms := 0.01 |}.

(** The waveform of 2048 samples that is silent but for one unit sample at
    position 1024. *)
Definition click_waveform : list Q := repeat 0 1024 ++ [1] ++ repeat 0 1023.

(** 4096 samples, silent but for one unit sample at position 512, three at
    1024-1026, one at 2048 and three at 2560-2562: the same burst twice,
    three frames apart. *)
Definition twin_bursts_waveform : list Q :=
  repeat 0 512 ++ [1] ++ repeat 0 511 ++ [1; 1; 1] ++ repeat 0 1021
  ++ [1] ++ repeat 0 511 ++ [1; 1; 1] ++ repeat 0 1533.

(** 6144 samples, silent but for a sample of 1 at position 1024 and a sample
    of 2 at position 4608: two events, the later one the louder. *)
Definition two_clicks_waveform : list Q :=
  repeat 0 1024 ++ [1] ++ repeat 0 3583 ++ [2] ++ repeat 0 1535.

(** Feature arrays of unequal lengths: four centroid and rolloff frames,
    two zero-crossing frames. *)
Definition ragged_transform : Transform :=
  {| magnitude := [];
     spectral_centroids := [100; 200; 300; 400];
     spectral_rolloff := [1000; 2000; 3000; 4000];
     zcr := [0.3; 0.4];
     rms := 0 |}.

(** No FFT bins and no feature frames. *)
Definition empty_transform : Transform := flat_transform 0 0.

End Samples.

(** ** The peaks of a waveform *)

Module Detection.

(** The peaks both entry points detect on the waveform [y]: [find_peaks] on
    the normalized envelope ([audio_analysis.py] lines 60-69,
    [live_audio_analysis.py] lines 104-114); none when normalization
    raises. *)
Definition detected_peaks (y : list Q) : list nat :=
  match FrameEnergy.normalize (FrameEnergy.frame_energy y) with
  | Ok energy => Scipy.find_peaks energy 0.2 5
  | Raise _ => []
  end.

End Detection.

(** ** Visualization payloads of the Extended report *)

Module Visualization.

Local Open Scope Q_scope.

(** ["fft"] ([live_audio_analysis.py] lines 88-95): the frequency axis and
    the magnitudes, cut to [half_length = len(frequency) // 2]. *)
Record FftData : Type := {
  fft_x : list Q;
  fft_y : list Q
}.

Definition fft_data (sr : positive) (mag : list Q) : FftData :=
  let frequency := Py.linspace (inject_Z (Z.pos sr)) (length mag) in
  let half_length := (length frequency / 2)%nat in
  {| fft_x := Py.prefix frequency half_length;
     fft_y := Py.prefix mag half_length |}.

(** [energy[peaks]] for an integer index array: one lookup per index, any
    index out of range raises. *)
Definition take_at (energy : list Q) (peaks : list nat) : result (list Q) :=
  mapM (fun p => Py.index energy (Z.of_nat p)) peaks.

(** ["energy"] ([live_audio_analysis.py] lines 117-122). *)
Record EnergyData : Type := {
  data_energy : list Q;
  data_peaks : list nat;
  peak_values : list Q;
  frames : list nat
}.

Definition energy_data (energy : list Q) (peaks : list nat)
    : result EnergyData :=
  let* values :=
    if (0 <? length peaks)%nat then take_at energy peaks else Ok [] in
  Ok {| data_energy := energy;
        data_peaks := peaks;
        peak_values := values;
        frames := Py.range_items (length energy) 1 |}.

End Visualization.

(** ** The single-chunk path: [process_real_time_chunk] *)

Module Streaming.

Local Open Scope Q_scope.

(** The outcome of a float64 division in NumPy: dividing by zero gives
    [nan] or an infinity (and a warning), never an exception. *)
Inductive float_result : Type :=
| NaN
| PosInf
| NegInf
| Val (q : Q).

Definition np_divide (a b : Q) : float_result :=
  if Qeq_bool b 0 then
    if Qeq_bool a 0 then NaN else if Qltb 0 a then PosInf else NegInf
  else Val (a / b).

(** [np.sum] of a one-dimensional array. *)
Definition np_sum (l : list Q) : Q := fold_left Qplus l 0.

(** [a * b] for one-dimensional arrays: elementwise for equal lengths, an
    array of length 1 is broadcast, any other pair of lengths raises. *)
Definition np_multiply (a b : list Q) : result (list Q) :=
  if (length a =? length b)%nat then
    Ok (map (fun p => fst p * snd p) (combine a b))
  else match a, b with
       | [x], _ => Ok (map (fun y => x * y) b)
       | _, [y] => Ok (map (fun x => x * y) a)
       | _, _ => Raise ValueError
       end.

(** [np.fft.fftfreq(n, d)] for [n > 0]: the integers
    [0 .. (n-1)//2, -(n//2) .. -1] times [1 / (n * d)]. *)
Definition fftfreq (n : nat) (d : Q) : list Q :=
  let val := 1 / (inject_Z (Z.of_nat n) * d) in
  let N := ((n - 1) / 2 + 1)%nat in
  let p1 := map Z.of_nat (seq 0 N) in
  let p2 := map (fun k => (Z.of_nat k - Z.of_nat (n / 2))%Z) (seq 0 (n / 2)) in
  map (fun k => inject_Z k * val) (p1 ++ p2).

(** The dictionary returned on success (without the timestamp). *)
Record ChunkResult : Type := {
  chunk_fft : list Q;
  chunk_energy : Q;
  spectral_centroid : float_result
}.

(** [process_real_time_chunk(audio_chunk, sr)]
    ([live_audio_analysis.py] lines 273-296).  [mag] stands for
    [np.abs(np.fft.fft(audio_chunk))] on a non-empty chunk; on an empty
    chunk [np.fft.fft] raises [ValueError].  [Raise] is the
    [{"error": ...}] dictionary of the [except] clause. *)
Definition process_real_time_chunk (audio_chunk mag : list Q) (sr : positive)
    : result ChunkResult :=
  let* magnitude :=
    match audio_chunk with
    | [] => Raise ValueError
    | _ :: _ => Ok mag
    end in
  let energy := np_sum (map (fun s => s * s) audio_chunk) in
  let freqs := fftfreq (length audio_chunk) (1 / inject_Z (Z.pos sr)) in
  let* weighted :=
    np_multiply (Py.prefix freqs (length freqs / 2))
                (Py.prefix magnitude (length magnitude / 2)) in
  Ok {| chunk_fft := Py.prefix magnitude (length magnitude / 2);
        chunk_energy := energy;
        spectral_centroid :=
          np_divide (np_sum weighted)
                    (np_sum (Py.prefix magnitude (length magnitude / 2))) |}.

End Streaming.

(** * Proofs *)

(** ** Comparisons *)

Lemma Qltb_lt (a b : Q) : Qltb a b = true <-> (a < b)%Q.
Proof.
  unfold Qltb. rewrite negb_true_iff. split.
  - intros H. apply Qnot_le_lt. intros Hle.
    apply Qle_bool_iff in Hle. congruence.
  - intros H. destruct (Qle_bool b a) eqn:E; [|reflexivity].
    apply Qle_bool_iff in E. exfalso. exact (Qlt_not_le _ _ H E).
Qed.

Lemma Qltb_ge (a b : Q) : Qltb a b = false <-> (b <= a)%Q.
Proof.
  unfold Qltb. rewrite negb_false_iff. apply Qle_bool_iff.
Qed.

(** ** Classifier *)

Module ClassifierFacts.
Import Classifier.
Local Open Scope Q_scope.

Lemma andb_Qltb (a b c d : Q) :
  Qltb a b && Qltb c d = true <-> a < b /\ c < d.
Proof. rewrite andb_true_iff, !Qltb_lt. tauto. Qed.

Lemma andb_Qltb_false (a b c d : Q) :
  Qltb a b && Qltb c d = false <-> ~ (a < b /\ c < d).
Proof.
  rewrite <- andb_Qltb. destruct (Qltb a b && Qltb c d); split; congruence.
Qed.

Lemma Qltb_false (a b : Q) : Qltb a b = false <-> ~ a < b.
Proof.
  rewrite <- Qltb_lt. destruct (Qltb a b); split; congruence.
Qed.

Lemma extended_rule_functional c r z l1 k1 l2 k2 :
  extended_rule c r z l1 k1 -> extended_rule c r z l2 k2 ->
  l1 = l2 /\ k1 = k2.
Proof.
  intros H1 H2; destruct H1; destruct H2; auto; tauto.
Qed.

(** C2.  For every rational triple (centroid, rolloff, zero-crossing rate)
    the Extended classifier of [generate_live_analysis] returns the label
    and confidence of the first rule that matches, in the order
    bass (0.8), voice/speech (0.9), high-frequency noise (0.7),
    percussive (0.85), and mixed/complex (0.6) when none matches: its result
    is the first match over the ordered rule list, it satisfies the ordered
    rule relation, and it is the only output that relation allows. *)
Theorem classify_extended_first_match (c r z : Q) :
  classify_extended c r z
    = first_match extended_rules ("Mixed/Complex"%string, 0.6) c r z
  /\ extended_rule c r z (fst (classify_extended c r z))
                         (snd (classify_extended c r z))
  /\ (forall l k, extended_rule c r z l k -> classify_extended c r z = (l, k)).
Proof.
  assert (Hrel : extended_rule c r z (fst (classify_extended c r z))
                                     (snd (classify_extended c r z))).
  { unfold classify_extended.
    destruct (Qltb c 1000 && Qltb r 2000) eqn:E1.
    { apply andb_Qltb in E1 as [? ?]. now apply ext_bass. }
    apply andb_Qltb_false in E1.
    destruct (Qltb c 3000 && Qltb z 0.1) eqn:E2.
    { apply andb_Qltb in E2 as [? ?]. now apply ext_voice. }
    apply andb_Qltb_false in E2.
    destruct (Qltb 4000 c && Qltb 8000 r) eqn:E3.
    { apply andb_Qltb in E3 as [? ?]. now apply ext_noise. }
    apply andb_Qltb_false in E3.
    destruct (Qltb 0.15 z) eqn:E4.
    { apply Qltb_lt in E4. now apply ext_percussive. }
    apply Qltb_false in E4. now apply ext_mixed. }
  split; [reflexivity|]. split; [exact Hrel|].
  intros l k H.
  destruct (extended_rule_functional _ _ _ _ _ _ _ Hrel H) as [<- <-].
  now destruct (classify_extended c r z).
Qed.

(** C5.  For every rational dominant frequency [f] the Basic classifier of
    [analyze_audio] returns "Low Frequency/Bass" when [f < 300],
    "Voice/Mid Range" when [300 <= f < 1000], "High Voice/Instruments" when
    [1000 <= f < 4000] and "High Frequency/Noise" otherwise; its result is a
    label only (a [string], with no confidence component), and it is the only
    label the four bands allow. *)
Theorem classify_basic_bands (f : Q) :
  basic_rule f (classify_basic f)
  /\ (forall l, basic_rule f l -> classify_basic f = l).
Proof.
  assert (Hrel : basic_rule f (classify_basic f)).
  { unfold classify_basic.
    destruct (Qltb f 300) eqn:E1.
    { apply Qltb_lt in E1. now apply basic_bass. }
    apply Qltb_ge in E1.
    destruct (Qltb f 1000) eqn:E2.
    { apply Qltb_lt in E2. now apply basic_mid. }
    apply Qltb_ge in E2.
    destruct (Qltb f 4000) eqn:E3.
    { apply Qltb_lt in E3. now apply basic_high. }
    apply Qltb_ge in E3. now apply basic_noise. }
  split; [exact Hrel|].
  intros l H.
  destruct Hrel; destruct H; try reflexivity; exfalso; lra.
Qed.

End ClassifierFacts.

(** ** Python and NumPy primitives *)

Module PyFacts.
Import Py.
Local Open Scope Q_scope.

Lemma range_len_spec (stop step i : nat) :
  (0 < step)%nat -> (i < range_len stop step)%nat <-> (i * step < stop)%nat.
Proof.
  intros Hs. unfold range_len.
  destruct (Nat.eqb_spec stop 0) as [->|Hne]; [lia|].
  assert (Hd := Nat.div_mod_eq (stop - 1) step).
  assert (Hm := Nat.mod_upper_bound (stop - 1) step ltac:(lia)).
  split; intros H; nia.
Qed.

Lemma length_range_items (stop step : nat) :
  length (range_items stop step) = range_len stop step.
Proof. unfold range_items. now rewrite length_map, length_seq. Qed.

Lemma nth_range_items (stop step i : nat) :
  (i < range_len stop step)%nat ->
  nth i (range_items stop step) 0%nat = (i * step)%nat.
Proof.
  intros H. unfold range_items.
  pose proof (map_nth (fun k => (k * step)%nat)
                (seq 0 (range_len stop step)) 0%nat i) as E.
  simpl in E. rewrite E, seq_nth; auto.
Qed.

Lemma In_range_items (stop step i : nat) :
  (0 < step)%nat -> In i (range_items stop step) -> (i < stop)%nat.
Proof.
  intros Hs H. unfold range_items in H.
  apply in_map_iff in H as (k & <- & Hk).
  apply in_seq in Hk. apply range_len_spec; auto. lia.
Qed.

Lemma slice_as_seq (y : list Q) (a n : nat) :
  slice y a n
  = map (fun k => nth k y 0) (seq a (Nat.min (a + n) (length y) - a)).
Proof.
  unfold slice.
  apply (nth_ext _ _ 0 0).
  - rewrite length_firstn, length_skipn, length_map, length_seq. lia.
  - intros k Hk. rewrite length_firstn, length_skipn in Hk.
    rewrite nth_firstn, nth_skipn.
    destruct (Nat.ltb_spec k n); [|lia].
    symmetry.
    rewrite (nth_indep (map _ _) 0 (nth 0%nat y 0))
      by (rewrite length_map, length_seq; lia).
    rewrite (map_nth (fun k => nth k y 0)), seq_nth; [reflexivity|lia].
Qed.

Lemma fold_left_Qplus_Qeq (l1 l2 : list Q) (a b : Q) :
  Forall2 Qeq l1 l2 -> a == b ->
  fold_left Qplus l1 a == fold_left Qplus l2 b.
Proof.
  intros H. revert a b. induction H as [|x y l1 l2 Hxy _ IH]; intros a b Hab.
  - exact Hab.
  - simpl. apply IH. now rewrite Hab, Hxy.
Qed.

Lemma sum_Qeq (l1 l2 : list Q) : Forall2 Qeq l1 l2 -> sum l1 == sum l2.
Proof. intros H. apply fold_left_Qplus_Qeq; [exact H|reflexivity]. Qed.

Lemma fold_left_Qplus_nonneg (l : list Q) (a : Q) :
  Forall (fun e => 0 <= e) l -> 0 <= a -> 0 <= fold_left Qplus l a.
Proof.
  intros H. revert a. induction H as [|x l Hx _ IH]; intros a Ha.
  - exact Ha.
  - simpl. apply IH. lra.
Qed.

Lemma fold_left_Qplus_zero (l : list Q) (a : Q) :
  Forall (fun e => e == 0) l -> a == 0 -> fold_left Qplus l a == 0.
Proof.
  intros H. revert a. induction H as [|x l Hx _ IH]; intros a Ha.
  - exact Ha.
  - simpl. apply IH. lra.
Qed.

Lemma Qmaxb_cases (a b : Q) :
  (Qmaxb a b = a /\ b <= a) \/ (Qmaxb a b = b /\ a < b).
Proof.
  unfold Qmaxb. destruct (Qltb a b) eqn:E.
  - right. split; [reflexivity|]. now apply Qltb_lt.
  - left. split; [reflexivity|]. now apply Qltb_ge.
Qed.

Lemma fold_left_Qmaxb_spec (l : list Q) (a : Q) :
  let m := fold_left Qmaxb l a in
  (m = a \/ In m l) /\ a <= m /\ Forall (fun e => e <= m) l.
Proof.
  revert a. induction l as [|x l IH]; intros a; simpl.
  - repeat split; [now left | lra | constructor].
  - destruct (IH (Qmaxb a x)) as (Hin & Hle & Hall).
    destruct (Qmaxb_cases a x) as [[E Hx]|[E Hx]]; rewrite E in *.
    + repeat split.
      * destruct Hin; auto.
      * exact Hle.
      * constructor; [lra|exact Hall].
    + repeat split.
      * destruct Hin as [->|Hin]; auto.
      * lra.
      * constructor; [lra|exact Hall].
Qed.

Lemma np_max_spec (l : list Q) (m : Q) :
  np_max l = Ok m -> In m l /\ Forall (fun e => e <= m) l.
Proof.
  destruct l as [|x l]; simpl; [discriminate|].
  intros [= <-].
  destruct (fold_left_Qmaxb_spec l x) as (Hin & Hle & Hall).
  split.
  - destruct Hin as [->|Hin]; auto.
  - constructor; assumption.
Qed.

Lemma np_max_nonempty (l : list Q) :
  l <> [] -> exists m, np_max l = Ok m.
Proof. destruct l; [congruence|]. intros _. simpl. eauto. Qed.

Lemma np_max_empty : np_max [] = Raise ValueError.
Proof. reflexivity. Qed.

Lemma index_in_range {A : Type} (l : list A) (i : nat) (d : A) :
  (i < length l)%nat -> index l (Z.of_nat i) = Ok (nth i l d).
Proof.
  intros H. unfold index.
  destruct (Z.ltb_spec (Z.of_nat i) 0); [lia|].
  destruct (Z.ltb_spec (Z.of_nat i) 0); [lia|].
  destruct (Z.leb_spec (Z.of_nat (length l)) (Z.of_nat i)); [lia|].
  simpl. rewrite Nat2Z.id.
  now rewrite (nth_error_nth' l d H).
Qed.

Lemma index_empty {A : Type} (i : Z) : index (@nil A) i = Raise IndexError.
Proof.
  unfold index.
  match goal with |- (if ?b then _ else _) = _ => destruct b end;
    [reflexivity|].
  now destruct (Z.to_nat _).
Qed.

Lemma length_linspace (stop : Q) (n : nat) : length (linspace stop n) = n.
Proof. unfold linspace. now rewrite length_map, length_seq. Qed.

End PyFacts.

(** ** Frame Energy Extractor *)

Module FrameEnergyFacts.
Import Py PyFacts FrameEnergy.
Local Open Scope Q_scope.

Lemma Qabs_square (s : Q) : Qabs (s * s) == s * s.
Proof.
  apply Qabs_pos.
  destruct (Qlt_le_dec s 0) as [Hs|Hs].
  - assert (E : s * s == (- s) * (- s)) by ring.
    rewrite E. apply Qmult_le_0_compat; lra.
  - now apply Qmult_le_0_compat.
Qed.

Lemma frame_sum_window (frame hop : nat) (y : list Q) (i : nat) :
  frame_sum frame y (i * hop) == window_energy frame hop y i.
Proof.
  unfold frame_sum, window_energy.
  rewrite slice_as_seq, map_map.
  apply sum_Qeq.
  induction (seq (i * hop) (Nat.min (i * hop + frame) (length y) - i * hop))
    as [|k l IH]; simpl; constructor; auto.
  apply Qabs_square.
Qed.

Lemma frame_sum_nonneg (frame : nat) (y : list Q) (a : nat) :
  0 <= frame_sum frame y a.
Proof.
  unfold frame_sum, sum. apply fold_left_Qplus_nonneg; [|lra].
  apply List.Forall_forall. intros e He.
  apply in_map_iff in He as (s & <- & _). apply Qabs_nonneg.
Qed.

Lemma frame_energy_nonneg (frame hop : nat) (y : list Q) :
  Forall (fun e => 0 <= e) (frame_energy_with frame hop y).
Proof.
  unfold frame_energy_with. apply List.Forall_forall. intros e He.
  apply in_map_iff in He as (a & <- & _). apply frame_sum_nonneg.
Qed.

Lemma length_frame_energy (frame hop : nat) (y : list Q) :
  length (frame_energy_with frame hop y) = range_len (length y) hop.
Proof.
  unfold frame_energy_with. now rewrite length_map, length_range_items.
Qed.

Lemma nth_frame_energy (frame hop : nat) (y : list Q) (i : nat) :
  (i < range_len (length y) hop)%nat ->
  nth i (frame_energy_with frame hop y) 0 = frame_sum frame y (i * hop).
Proof.
  intros H. unfold frame_energy_with.
  rewrite (nth_indep _ 0 (frame_sum frame y 0%nat))
    by now rewrite length_map, length_range_items.
  now rewrite map_nth, nth_range_items.
Qed.

Lemma is_maximum_unique (m d : Q) (l : list Q) :
  is_maximum m l -> is_maximum d l -> d == m.
Proof.
  intros [Hm Hml] [Hd Hdl].
  rewrite List.Forall_forall in Hml, Hdl.
  apply Qle_antisym; auto.
Qed.

Lemma normalize_spec (energy : list Q) (m : Q) :
  is_maximum m energy ->
  (0 < m ->
     exists d, d == m /\ normalize energy = Ok (map (fun e => e / d) energy))
  /\ (~ 0 < m -> normalize energy = Ok energy).
Proof.
  intros Hm. unfold normalize.
  destruct (np_max energy) as [d|e] eqn:E.
  2:{ destruct energy; [destruct Hm as [[] _]|discriminate]. }
  assert (Hd : d == m).
  { apply is_maximum_unique with energy; auto.
    destruct (np_max_spec _ _ E). now split. }
  simpl. split.
  - intros Hpos. exists d. split; [exact Hd|].
    assert (Ht : Qltb 0 d = true) by (apply Qltb_lt; lra).
    now rewrite Ht.
  - intros Hneg.
    assert (Hf : Qltb 0 d = false) by (apply Qltb_ge; lra).
    now rewrite Hf.
Qed.

(** The envelope for arbitrary frame and hop lengths. *)
Lemma frame_energy_with_spec (frame hop : nat) (y : list Q) :
  (0 < hop)%nat ->
  let energy := frame_energy_with frame hop y in
  (forall i, (i < length energy)%nat <-> (i * hop < length y)%nat)
  /\ (forall i, (i < length energy)%nat ->
        nth i energy 0 == window_energy frame hop y i)
  /\ Forall (fun e => 0 <= e) energy.
Proof.
  intros Hhop energy. subst energy. split; [|split].
  - intros i. rewrite length_frame_energy. now apply range_len_spec.
  - intros i Hi. rewrite length_frame_energy in Hi.
    rewrite nth_frame_energy by exact Hi. apply frame_sum_window.
  - apply frame_energy_nonneg.
Qed.

Lemma frame_energy_nonempty (y : list Q) : y <> [] -> frame_energy y <> [].
Proof.
  intros Hy E. apply (f_equal (@length Q)) in E.
  unfold frame_energy in E. rewrite length_frame_energy in E.
  unfold range_len in E. destruct y; [congruence|discriminate].
Qed.

(** C6 (as the code has it).  For every non-empty waveform, the Frame Energy
    Extractor of both scripts (frame length 1024, hop length 512) yields
    exactly one value per start offset [0, 512, 2 * 512, ...] below the
    signal length, in offset order, the value at offset [i * 512] being the
    sum of the squared samples over [[i * 512, i * 512 + 1024)] clipped at
    the signal end.  These values have a global maximum [m]; normalization
    divides every value by [m] when [m > 0], and when the maximum is zero it
    returns the values unchanged, all of them zero. *)
Theorem frame_energy_normalized (y : list Q) :
  y <> [] ->
  (forall i, (i < length (frame_energy y))%nat
             <-> (i * hop_length < length y)%nat)
  /\ (forall i, (i < length (frame_energy y))%nat ->
        nth i (frame_energy y) 0
        == window_energy frame_length hop_length y i)
  /\ exists m,
       is_maximum m (frame_energy y)
       /\ (0 < m ->
             normalize (frame_energy y)
             = Ok (map (fun e => e / m) (frame_energy y)))
       /\ (~ 0 < m ->
             normalize (frame_energy y) = Ok (frame_energy y)
             /\ Forall (fun e => e == 0) (frame_energy y)).
Proof.
  intros Hy.
  destruct (frame_energy_with_spec frame_length hop_length y)
    as (Hlen & Hnth & Hpos); [unfold hop_length; lia|].
  split; [exact Hlen|]. split; [exact Hnth|].
  destruct (np_max_nonempty _ (frame_energy_nonempty y Hy)) as [m Hm].
  assert (Hmax : is_maximum m (frame_energy y)).
  { destruct (np_max_spec _ _ Hm). now split. }
  exists m. split; [exact Hmax|].
  unfold normalize. rewrite Hm. cbn [bind]. split.
  - intros Hpos'. apply Qltb_lt in Hpos'. now rewrite Hpos'.
  - intros Hzero.
    assert (E : Qltb 0 m = false) by (apply Qltb_ge; lra).
    rewrite E. split; [reflexivity|].
    destruct Hmax as [_ Hle].
    rewrite List.Forall_forall in *. intros e He.
    specialize (Hle e He). specialize (Hpos e He). simpl in *. lra.
Qed.

(** The envelope of the three-sample waveform [1, 2, 3] is the single frame
    energy [14], which is its own maximum. *)
Lemma frame_energy_normalized_witness :
  [1; 2; 3] <> []
  /\ exists m,
       is_maximum m (frame_energy [1; 2; 3])
       /\ (0 < m ->
             normalize (frame_energy [1; 2; 3])
             = Ok (map (fun e => e / m) (frame_energy [1; 2; 3])))
       /\ (~ 0 < m ->
             normalize (frame_energy [1; 2; 3]) = Ok (frame_energy [1; 2; 3])
             /\ Forall (fun e => e == 0) (frame_energy [1; 2; 3])).
Proof.
  assert (H : [1; 2; 3] <> []) by discriminate.
  split; [exact H|].
  apply (frame_energy_normalized [1; 2; 3] H).
Defined.

(** Counterexample to C6 as stated: the empty waveform has an empty
    envelope, and normalization raises instead of returning it. *)
Lemma empty_envelope_raises :
  frame_energy [] = [] /\ normalize (frame_energy []) = Raise ValueError.
Proof. split; reflexivity. Qed.

End FrameEnergyFacts.

(** ** Peak Picker *)

Module ScipyFacts.
Import Py PyFacts Scipy PeakSpec.
Local Open Scope Q_scope.
Local Arguments Nat.div _ _ : simpl never.

Lemma midpoint_between (l r : nat) :
  (l <= r)%nat -> (l <= (l + r) / 2 <= r)%nat.
Proof.
  intros H.
  pose proof (Nat.div_mod_eq (l + r) 2) as E.
  pose proof (Nat.mod_upper_bound (l + r) 2 ltac:(lia)) as B.
  lia.
Qed.

(** *** Local maxima *)

Lemma plateau_end_spec (fuel : nat) (x : list Q) (i_max i a : nat) :
  let r := plateau_end fuel x i_max i a in
  (a <= r)%nat
  /\ ((a <= i_max)%nat -> (r <= i_max)%nat)
  /\ (forall k, (a <= k < r)%nat -> nth k x 0 == nth i x 0)
  /\ ((i_max - a <= fuel)%nat -> (r < i_max)%nat ->
      ~ nth r x 0 == nth i x 0).
Proof.
  revert a. induction fuel as [|fuel IH]; intros a; simpl.
  - repeat split; try lia.
  - destruct (Nat.ltb_spec a i_max) as [Ha|Ha]; simpl.
    + destruct (Qeq_bool (nth a x 0) (nth i x 0)) eqn:E.
      * destruct (IH (S a)) as (H1 & H2 & H3 & H4).
        repeat split; try lia.
        -- intros k Hk. destruct (Nat.eq_dec k a) as [->|Hne].
           ++ now apply Qeq_bool_eq.
           ++ apply H3. lia.
        -- intros Hf Hr. apply H4; lia.
      * repeat split; try lia.
        intros _ _. now apply Qeq_bool_neq.
    + repeat split; try lia.
Qed.

Lemma local_maxima_from_sound (fuel : nat) (x : list Q) (i_max i : nat) :
  (1 <= i)%nat -> (i_max < length x)%nat ->
  Forall (fun p => (i <= p)%nat /\ flat_peak x p)
         (local_maxima_from fuel x i_max i)
  /\ StronglySorted lt (local_maxima_from fuel x i_max i).
Proof.
  revert i. induction fuel as [|fuel IH]; intros i Hi Hmax; simpl.
  - split; constructor.
  - destruct (Nat.ltb_spec i i_max) as [Hlt|Hge]; [|split; constructor].
    assert (Hnext : Forall (fun p => (i <= p)%nat /\ flat_peak x p)
                      (local_maxima_from fuel x i_max (i + 1))
                    /\ StronglySorted lt
                         (local_maxima_from fuel x i_max (i + 1))).
    { destruct (IH (i + 1)%nat) as [Hall Hs]; [lia|lia|]. split; [|exact Hs].
      eapply List.Forall_impl; [|exact Hall]. simpl. intros p [? ?]. split; [lia|auto]. }
    destruct (Qltb (nth (i - 1) x 0) (nth i x 0)) eqn:Erise; [|exact Hnext].
    apply Qltb_lt in Erise.
    destruct (plateau_end_spec (length x) x i_max i (i + 1))
      as (Hr1 & Hr2 & Hr3 & _).
    set (r := plateau_end (length x) x i_max i (i + 1)) in *.
    destruct (Qltb (nth r x 0) (nth i x 0)) eqn:Efall; [|exact Hnext].
    apply Qltb_lt in Efall.
    specialize (Hr2 ltac:(lia)).
    destruct (IH (r + 1)%nat) as [Hall Hs]; [lia|lia|].
    set (mid := ((i + (r - 1)) / 2)%nat).
    assert (Hmid : (i <= mid <= r - 1)%nat).
    { subst mid. apply midpoint_between. lia. }
    assert (Hplateau : forall k, (i <= k <= r - 1)%nat ->
                                 nth k x 0 == nth i x 0).
    { intros k Hk. destruct (Nat.eq_dec k i) as [->|Hne]; [reflexivity|].
      apply Hr3. lia. }
    assert (Hmidv : nth mid x 0 == nth i x 0) by (apply Hplateau; lia).
    split.
    + constructor.
      * split; [lia|]. exists i, (r - 1)%nat.
        replace (r - 1 + 1)%nat with r by lia.
        repeat split; try lia.
        -- intros k Hk. rewrite Hmidv. now apply Hplateau.
        -- now rewrite Hmidv.
        -- now rewrite Hmidv.
      * eapply List.Forall_impl; [|exact Hall]. simpl. intros p [? ?]. split; [lia|auto].
    + constructor; [exact Hs|].
      eapply List.Forall_impl; [|exact Hall]. simpl. intros p [? ?]. lia.
Qed.

Lemma local_maxima_1d_sound (x : list Q) :
  Forall (flat_peak x) (local_maxima_1d x)
  /\ StronglySorted lt (local_maxima_1d x).
Proof.
  unfold local_maxima_1d.
  destruct x as [|x0 x'].
  - simpl. split; constructor.
  - destruct (local_maxima_from_sound (length (x0 :: x')) (x0 :: x')
                (length (x0 :: x') - 1) 1) as [Hall Hs];
      [lia|simpl; lia|].
    split; [|exact Hs].
    eapply List.Forall_impl; [|exact Hall]. simpl. intros p [_ ?]. assumption.
Qed.

Lemma local_maxima_from_complete (fuel : nat) (x : list Q) (i_max i : nat)
    (l r p : nat) :
  (i_max < length x)%nat -> (i_max - i <= fuel)%nat ->
  (1 <= i)%nat -> (i <= l)%nat -> (l <= r)%nat -> (r < i_max)%nat ->
  p = ((l + r) / 2)%nat ->
  (forall k, (l <= k <= r)%nat -> nth k x 0 == nth p x 0) ->
  nth (l - 1) x 0 < nth p x 0 ->
  nth (r + 1) x 0 < nth p x 0 ->
  In p (local_maxima_from fuel x i_max i).
Proof.
  intros Hmax Hfuel Hi Hil Hlr Hr Hp Hflat Hleft Hright.
  assert (Hpl : (l <= p <= r)%nat).
  { subst p. now apply midpoint_between. }
  revert i Hfuel Hi Hil.
  induction fuel as [|fuel IH]; intros i Hfuel Hi Hil; [lia|].
  simpl.
  destruct (Nat.ltb_spec i i_max) as [_|?]; [|lia].
  destruct (plateau_end_spec (length x) x i_max i (i + 1))
    as (He1 & He2 & He3 & He4).
  set (e := plateau_end (length x) x i_max i (i + 1)) in *.
  specialize (He2 ltac:(lia)).
  assert (Hrun : forall k, (i <= k < e)%nat -> nth k x 0 == nth i x 0).
  { intros k Hk. destruct (Nat.eq_dec k i) as [->|Hne]; [reflexivity|].
    apply He3. lia. }
  destruct (Nat.eq_dec i l) as [->|Hne].
  - (* the scan has reached the left edge of the flat peak *)
    assert (Hl : nth l x 0 == nth p x 0) by (apply Hflat; lia).
    assert (Erise : Qltb (nth (l - 1) x 0) (nth l x 0) = true).
    { apply Qltb_lt. now rewrite Hl. }
    rewrite Erise.
    assert (He : e = (r + 1)%nat).
    { destruct (Nat.lt_trichotomy e (r + 1)) as [Hlt|[Heq|Hgt]]; [|exact Heq|].
      - exfalso. apply He4; [lia|lia|].
        rewrite Hl. apply Hflat. lia.
      - exfalso. assert (Hq : nth (r + 1) x 0 == nth l x 0) by (apply He3; lia).
        rewrite Hq, Hl in Hright. exact (Qlt_irrefl _ Hright). }
    rewrite He.
    assert (Efall : Qltb (nth (r + 1) x 0) (nth l x 0) = true).
    { apply Qltb_lt. now rewrite Hl. }
    rewrite Efall. left.
    replace (r + 1 - 1)%nat with r by lia. now subst p.
  - (* the scan is still left of the flat peak *)
    assert (Hnext : In p (local_maxima_from fuel x i_max (i + 1)))
      by (apply IH; lia).
    destruct (Qltb (nth (i - 1) x 0) (nth i x 0)) eqn:Erise; [|exact Hnext].
    destruct (Qltb (nth e x 0) (nth i x 0)) eqn:Efall; [|exact Hnext].
    apply Qltb_lt in Efall.
    right. apply IH; try lia.
    (* the run found ends strictly before [l] *)
    destruct (Nat.lt_ge_cases e l) as [Hlt|Hge]; [lia|exfalso].
    assert (Hll : nth l x 0 == nth p x 0) by (apply Hflat; lia).
    destruct (Nat.eq_dec e l) as [Heq|Hneq].
    + assert (Hprev : nth (l - 1) x 0 == nth i x 0) by (apply Hrun; lia).
      rewrite Heq in Efall. rewrite Hprev, <- Hll in Hleft.
      exact (Qlt_irrefl _ (Qlt_trans _ _ _ Hleft Efall)).
    + assert (H1 : nth (l - 1) x 0 == nth i x 0) by (apply Hrun; lia).
      assert (H2 : nth l x 0 == nth i x 0) by (apply Hrun; lia).
      rewrite H1, <- Hll, H2 in Hleft. exact (Qlt_irrefl _ Hleft).
Qed.

Lemma local_maxima_1d_complete (x : list Q) (p : nat) :
  flat_peak x p -> In p (local_maxima_1d x).
Proof.
  intros (l & r & Hl & Hlr & Hr & Hp & Hflat & Hleft & Hright).
  unfold local_maxima_1d.
  apply local_maxima_from_complete with (l := l) (r := r); auto; lia.
Qed.

(** *** Boolean masks *)

Lemma mask_select_map {A : Type} (f : A -> bool) (l : list A) :
  mask_select l (map f l) = List.filter f l.
Proof.
  unfold mask_select. induction l as [|a l IH]; simpl; [reflexivity|].
  destruct (f a); simpl; now rewrite IH.
Qed.

Lemma In_mask_select {A : Type} (l : list A) (keep : list bool) (p d : A) :
  In p (mask_select l keep)
  <-> exists j, (j < length l)%nat /\ nth j l d = p /\ nth j keep false = true.
Proof.
  unfold mask_select. revert keep.
  induction l as [|a l IH]; intros keep; simpl.
  - split; [tauto|]. intros (j & Hj & _). lia.
  - destruct keep as [|b keep]; simpl.
    + split; [tauto|]. intros (j & _ & _ & Hk). now destruct j.
    + destruct b; simpl; rewrite IH.
      * split.
        -- intros [<-|(j & Hj & Hp & Hk)]; [exists 0%nat|exists (S j)];
             repeat split; auto; lia.
        -- intros ([|j] & Hj & Hp & Hk); [now left|right].
           exists j. repeat split; auto; lia.
      * split.
        -- intros (j & Hj & Hp & Hk). exists (S j). repeat split; auto; lia.
        -- intros ([|j] & Hj & Hp & Hk); [discriminate|].
           exists j. repeat split; auto; lia.
Qed.

Lemma mask_select_incl {A : Type} (l : list A) (keep : list bool) (p : A) :
  In p (mask_select l keep) -> In p l.
Proof.
  intros H. apply (In_mask_select l keep p p) in H as (j & Hj & <- & _).
  now apply nth_In.
Qed.

Lemma mask_select_sorted {A : Type} (R : A -> A -> Prop) (l : list A)
    (keep : list bool) :
  StronglySorted R l -> StronglySorted R (mask_select l keep).
Proof.
  intros H. revert keep. induction H as [|a l Hs IH Ha]; intros keep.
  - constructor.
  - destruct keep as [|b keep]; [constructor|].
    assert (Hall : Forall (R a) (mask_select l keep)).
    { rewrite List.Forall_forall in *. intros p Hp.
      apply Ha. eapply mask_select_incl; eauto. }
    unfold mask_select in *. simpl. destruct b; simpl.
    + constructor; [apply IH|exact Hall].
    + apply IH.
Qed.

Lemma filter_sorted {A : Type} (R : A -> A -> Prop) (f : A -> bool)
    (l : list A) :
  StronglySorted R l -> StronglySorted R (List.filter f l).
Proof. rewrite <- mask_select_map. apply mask_select_sorted. Qed.

Lemma sorted_nth_lt (l : list nat) (a b : nat) :
  StronglySorted lt l -> (a < b)%nat -> (b < length l)%nat ->
  (nth a l 0 < nth b l 0)%nat.
Proof.
  intros H. revert a b. induction H as [|x l Hs IH Hx]; intros a b Hab Hb.
  - simpl in Hb. lia.
  - simpl in Hb. destruct b as [|b]; [lia|]. destruct a as [|a]; simpl.
    + rewrite List.Forall_forall in Hx. apply Hx. apply nth_In. lia.
    + apply IH; lia.
Qed.

Lemma nth_insert_eq {A : Type} (l : list A) (k : nat) (v d : A) :
  (k < length l)%nat -> nth k (<[k := v]> l) d = v.
Proof. intros H. now rewrite nth_lookup, list_lookup_insert_eq. Qed.

Lemma nth_insert_ne {A : Type} (l : list A) (k j : nat) (v d : A) :
  k <> j -> nth j (<[k := v]> l) d = nth j l d.
Proof. intros H. now rewrite !nth_lookup, list_lookup_insert_ne. Qed.

(** *** The distance selection *)

Section Distance.

Variable peaks : list nat.
Variable distance : nat.
Hypothesis peaks_sorted : StronglySorted lt peaks.

Local Abbreviation n := (length peaks).
Local Abbreviation P i := (Z.of_nat (nth i peaks 0%nat)).
Local Abbreviation D := (Z.of_nat distance).

Local Abbreviation close := (PeakSpec.close peaks distance).

Lemma P_increasing (a b : nat) : (a < b)%nat -> (b < n)%nat -> (P a < P b)%Z.
Proof.
  intros Hab Hb. pose proof (sorted_nth_lt peaks a b peaks_sorted Hab Hb). lia.
Qed.

Lemma flag_earlier_spec (k1 j : nat) (keep : list bool) :
  (k1 <= j)%nat -> (j < n)%nat -> length keep = n ->
  length (flag_earlier peaks distance j k1 keep) = n
  /\ forall i, (i < n)%nat ->
       (nth i (flag_earlier peaks distance j k1 keep) false = true
        <-> nth i keep false = true
            /\ ~ ((i < k1)%nat /\ (P j - P i < D)%Z)).
Proof.
  revert keep. induction k1 as [|k IH]; intros keep Hk Hj Hlen; simpl.
  - split; [exact Hlen|]. intros i Hi. split; [intros; split; [auto|lia]|tauto].
  - destruct (Z.ltb_spec (P j - P k) D) as [Hc|Hc].
    + destruct (IH (<[k := false]> keep)) as [Hl Hspec];
        [lia|lia|now rewrite length_insert|].
      split; [exact Hl|]. intros i Hi. rewrite (Hspec i Hi).
      destruct (Nat.eq_dec i k) as [->|Hne].
      * rewrite nth_insert_eq by lia. split; [intros [? _]; discriminate|].
        intros [_ Hn]. exfalso. apply Hn. split; [lia|exact Hc].
      * rewrite nth_insert_ne by auto.
        split; intros [Hkeep Hn]; (split; [exact Hkeep|]); intros [? ?];
          apply Hn; split; auto; lia.
    + split; [exact Hlen|]. intros i Hi.
      split; [|tauto]. intros Hkeep. split; [exact Hkeep|].
      intros [Hik Hd].
      destruct (Nat.eq_dec i k) as [->|Hne]; [lia|].
      pose proof (P_increasing i k ltac:(lia) ltac:(lia)). lia.
Qed.

Lemma flag_later_spec (fuel j k : nat) (keep : list bool) :
  (j < k)%nat -> (n - k <= fuel)%nat -> length keep = n ->
  length (flag_later fuel peaks distance j k keep) = n
  /\ forall i, (i < n)%nat ->
       (nth i (flag_later fuel peaks distance j k keep) false = true
        <-> nth i keep false = true
            /\ ~ ((k <= i)%nat /\ (P i - P j < D)%Z)).
Proof.
  revert k keep. induction fuel as [|fuel IH]; intros k keep Hjk Hf Hlen; simpl.
  - split; [exact Hlen|]. intros i Hi. split; [intros; split; [auto|lia]|tauto].
  - destruct (Nat.ltb_spec k n) as [Hkn|Hkn]; simpl.
    + destruct (Z.ltb_spec (P k - P j) D) as [Hc|Hc].
      * destruct (IH (S k) (<[k := false]> keep)) as [Hl Hspec];
          [lia|lia|now rewrite length_insert|].
        split; [exact Hl|]. intros i Hi. rewrite (Hspec i Hi).
        destruct (Nat.eq_dec i k) as [->|Hne].
        -- rewrite nth_insert_eq by lia. split; [intros [? _]; discriminate|].
           intros [_ Hn]. exfalso. apply Hn. split; [lia|exact Hc].
        -- rewrite nth_insert_ne by auto.
           split; intros [Hkeep Hn]; (split; [exact Hkeep|]); intros [? ?];
             apply Hn; split; auto; lia.
      * split; [exact Hlen|]. intros i Hi.
        split; [|tauto]. intros Hkeep. split; [exact Hkeep|].
        intros [Hik Hd].
        destruct (Nat.eq_dec i k) as [->|Hne]; [lia|].
        pose proof (P_increasing k i ltac:(lia) ltac:(lia)). lia.
    + split; [exact Hlen|]. intros i Hi.
      split; [intros; split; [auto|lia]|tauto].
Qed.

Lemma close_cases (i j : nat) :
  (i < n)%nat -> (j < n)%nat ->
  close i j
  <-> ((i < j)%nat /\ (P j - P i < D)%Z) \/ ((S j <= i)%nat /\ (P i - P j < D)%Z).
Proof.
  intros Hi Hj. unfold PeakSpec.close, closer_than.
  destruct (Nat.lt_trichotomy i j) as [Hlt|[->|Hgt]].
  - pose proof (P_increasing i j Hlt Hj). lia.
  - lia.
  - pose proof (P_increasing j i Hgt Hi). lia.
Qed.

Lemma suppress_around_kept (keep : list bool) (j : nat) :
  (j < n)%nat -> length keep = n -> nth j keep false = true ->
  length (suppress_around peaks distance keep j) = n
  /\ forall i, (i < n)%nat ->
       (nth i (suppress_around peaks distance keep j) false = true
        <-> nth i keep false = true /\ ~ close i j).
Proof.
  intros Hj Hlen Hkeep. unfold suppress_around. rewrite Hkeep.
  destruct (flag_earlier_spec j j keep) as [Hl1 H1]; auto.
  destruct (flag_later_spec n j (S j) (flag_earlier peaks distance j j keep))
    as [Hl2 H2]; [lia|lia|exact Hl1|].
  split; [exact Hl2|]. intros i Hi.
  rewrite (H2 i Hi), (H1 i Hi), (close_cases i j Hi Hj). tauto.
Qed.

Lemma suppress_around_skipped (keep : list bool) (j : nat) :
  nth j keep false = false -> suppress_around peaks distance keep j = keep.
Proof. intros H. unfold suppress_around. now rewrite H. Qed.

Variable R : nat -> nat -> Prop.

Local Abbreviation loop_inv := (PeakSpec.loop_inv peaks distance R).

Lemma close_sym (i j : nat) : close i j -> close j i.
Proof.
  unfold PeakSpec.close, closer_than. intros [? ?]. split; [auto|lia].
Qed.

Lemma close_dec (i j : nat) : close i j \/ ~ close i j.
Proof.
  unfold PeakSpec.close, closer_than.
  destruct (Nat.eq_dec i j) as [->|Hne]; [right; tauto|].
  destruct (Z_lt_ge_dec (Z.abs (P i - P j)) D) as [Hd|Hd];
    [left; tauto|right]. intros [_ ?]. lia.
Qed.

Lemma loop_inv_init : loop_inv [] (repeat true n).
Proof.
  split; [apply repeat_length|]. split.
  - intros j i [].
  - intros i Hi H. rewrite nth_repeat_lt in H by exact Hi. discriminate.
Qed.

Lemma loop_inv_step (done : list nat) (keep : list bool) (j : nat) :
  loop_inv done keep ->
  (forall i, (i < n)%nat -> i <> j -> ~ In i done -> R j i) ->
  loop_inv (done ++ [j]) (suppress_around peaks distance keep j).
Proof.
  intros (Hlen & Hblock & Hwit) Hnew.
  destruct (nth j keep false) eqn:Hkj.
  - assert (Hj : (j < n)%nat).
    { destruct (Nat.lt_ge_cases j n) as [?|Hge]; [assumption|].
      rewrite nth_overflow in Hkj by lia. discriminate. }
    destruct (suppress_around_kept keep j Hj Hlen Hkj) as [Hl Hspec].
    assert (Hstay : forall a, In a done -> (a < n)%nat ->
              nth a keep false = true ->
              nth a (suppress_around peaks distance keep j) false = true).
    { intros a Ha Han Hka. apply Hspec; [exact Han|]. split; [exact Hka|].
      intros Hc. pose proof (Hblock a j Ha Han Hj Hka (close_sym _ _ Hc)).
      congruence. }
    assert (Hjstay : nth j (suppress_around peaks distance keep j) false = true).
    { apply Hspec; [exact Hj|]. split; [exact Hkj|]. intros [? _]. auto. }
    split; [exact Hl|]. split.
    + intros a i Ha Han Hin Hka Hc.
      destruct (nth i (suppress_around peaks distance keep j) false) eqn:E;
        [|reflexivity].
      apply Hspec in E as [Hki Hnc]; [|exact Hin].
      apply Hspec in Hka as [Hka _]; [|exact Han].
      apply in_app_or in Ha as [Ha|[<-|[]]].
      * pose proof (Hblock a i Ha Han Hin Hka Hc). congruence.
      * contradiction.
    + intros i Hi E.
      destruct (nth i keep false) eqn:Hki.
      * (* flagged in this iteration, by [j] *)
        assert (Hc : close i j).
        { destruct (close_dec i j) as [Hc|Hnc]; [exact Hc|].
          assert (nth i (suppress_around peaks distance keep j) false = true)
            by (apply Hspec; auto).
          congruence. }
        exists j. split; [apply in_or_app; right; now left|].
        split; [exact Hj|]. split; [exact Hjstay|]. split; [exact Hc|].
        apply Hnew; [exact Hi|apply Hc|].
        intros Hin.
        pose proof (Hblock i j Hin Hi Hj Hki (close_sym _ _ Hc)). congruence.
      * (* flagged in an earlier iteration *)
        destruct (Hwit i Hi Hki) as (a & Ha & Han & Hka & Hc & Hr).
        exists a. split; [apply in_or_app; now left|].
        split; [exact Han|]. split; [now apply Hstay|]. split; assumption.
  - rewrite suppress_around_skipped by exact Hkj.
    split; [exact Hlen|]. split.
    + intros a i Ha Han Hin Hka Hc.
      apply in_app_or in Ha as [Ha|[<-|[]]]; [eauto|congruence].
    + intros i Hi Hki.
      destruct (Hwit i Hi Hki) as (a & Ha & Han & Hka & Hc & Hr).
      exists a. split; [apply in_or_app; now left|]. auto.
Qed.

Lemma loop_inv_fold (rest done : list nat) (keep : list bool) :
  loop_inv done keep ->
  StronglySorted R rest ->
  (forall i, (i < n)%nat -> In i done \/ In i rest) ->
  loop_inv (done ++ rest) (fold_left (suppress_around peaks distance) rest keep).
Proof.
  revert done keep. induction rest as [|j rest IH]; intros done keep Hinv Hs Hall.
  - simpl. now rewrite app_nil_r.
  - simpl. apply StronglySorted_inv in Hs as [Hs Hj].
    replace (done ++ j :: rest) with ((done ++ [j]) ++ rest)
      by (rewrite <- app_assoc; reflexivity).
    apply IH; [|exact Hs|].
    + apply loop_inv_step; [exact Hinv|].
      intros i Hi Hne Hnd.
      destruct (Hall i Hi) as [?|[?|Hin]]; [contradiction|congruence|].
      rewrite List.Forall_forall in Hj. now apply Hj.
    + intros i Hi. destruct (Hall i Hi) as [?|[?|Hin]].
      * left. apply in_or_app. now left.
      * left. apply in_or_app. right. now left.
      * now right.
Qed.

(** The outcome of the priority loop over a complete, sorted order. *)
Lemma select_in_order_spec (order : list nat) :
  StronglySorted R order ->
  (forall i, (i < n)%nat -> In i order) ->
  let keep := select_in_order peaks distance order in
  length keep = n
  /\ (forall i j, (i < n)%nat -> (j < n)%nat ->
        nth i keep false = true -> nth j keep false = true -> ~ close i j)
  /\ (forall i, (i < n)%nat -> nth i keep false = false ->
        exists j, (j < n)%nat /\ nth j keep false = true
                  /\ close i j /\ R j i).
Proof.
  intros Hs Hall keep.
  destruct (loop_inv_fold order [] (repeat true n) loop_inv_init Hs)
    as (Hlen & Hblock & Hwit); [auto|].
  simpl in *. fold (select_in_order peaks distance order) in *.
  split; [exact Hlen|]. split.
  - intros i j Hi Hj Hki Hkj Hc.
    pose proof (Hblock j i (Hall j Hj) Hj Hi Hkj Hc). subst keep. congruence.
  - intros i Hi Hki. destruct (Hwit i Hi Hki) as (j & _ & H). exists j. exact H.
Qed.

End Distance.

(** *** The processing order *)

Lemma sorted_snoc {A : Type} (R : A -> A -> Prop) (l : list A) (a : A) :
  StronglySorted R l -> Forall (fun b => R b a) l ->
  StronglySorted R (l ++ [a]).
Proof.
  intros Hs. induction Hs as [|b l Hs IH Hb]; intros Ha; simpl.
  - repeat constructor.
  - apply Forall_cons_iff in Ha as [Hba Ha].
    constructor; [now apply IH|].
    apply Forall_app. split; [exact Hb|]. now constructor.
Qed.

Lemma sorted_rev {A : Type} (R : A -> A -> Prop) (l : list A) :
  StronglySorted R l -> StronglySorted (fun a b => R b a) (rev l).
Proof.
  intros Hs. induction Hs as [|a l Hs IH Ha]; simpl; [constructor|].
  apply sorted_snoc; [exact IH|].
  rewrite List.Forall_forall in *. intros b Hb. apply Ha. now apply in_rev.
Qed.

Lemma nth_map_lt {A B : Type} (g : A -> B) (l : list A) (i : nat) (d : A)
    (d' : B) :
  (i < length l)%nat -> nth i (map g l) d' = g (nth i l d).
Proof.
  intros H. rewrite (nth_indep _ d' (g d)) by now rewrite length_map.
  apply map_nth.
Qed.

Section Argsort.

Variable priority : list Q.

Local Abbreviation prio i := (nth i priority 0).

Local Abbreviation ascends := (PeakSpec.ascends priority).

Lemma argsort_insert_In (j k : nat) (l : list nat) :
  In k (argsort_insert priority j l) <-> k = j \/ In k l.
Proof.
  induction l as [|a l IH]; simpl.
  - intuition.
  - destruct (Qle_bool (prio j) (prio a)); simpl; rewrite ?IH; intuition.
Qed.

Lemma argsort_insert_sorted (j : nat) (l : list nat) :
  StronglySorted ascends l -> Forall (fun k => (j < k)%nat) l ->
  StronglySorted ascends (argsort_insert priority j l).
Proof.
  intros Hs. induction Hs as [|a l Hs IH Ha]; intros Hj; simpl.
  - repeat constructor.
  - apply Forall_cons_iff in Hj as [Hja Hj].
    destruct (Qle_bool (prio j) (prio a)) eqn:E.
    + apply Qle_bool_iff in E.
      assert (Hj_a : ascends j a).
      { unfold PeakSpec.ascends.
        destruct (Qlt_le_dec (prio j) (prio a)) as [?|Hge];
          [now left|right]. split; [now apply Qle_antisym|exact Hja]. }
      constructor; [now constructor|].
      constructor; [exact Hj_a|].
      rewrite List.Forall_forall in *. intros b Hb.
      specialize (Ha b Hb). specialize (Hj b Hb).
      unfold PeakSpec.ascends in *.
      destruct (Qlt_le_dec (prio j) (prio b)) as [?|Hge]; [now left|right].
      split; [|exact Hj]. apply Qle_antisym; [|exact Hge].
      destruct Ha as [?|[Heq _]]; [|rewrite <- Heq; exact E].
      apply Qle_trans with (prio a); [exact E|]. now apply Qlt_le_weak.
    + constructor; [now apply IH|].
      rewrite List.Forall_forall in *. intros b Hb.
      apply argsort_insert_In in Hb as [->|Hb]; [|now apply Ha].
      left. apply Qnot_le_lt. intros Hle. apply Qle_bool_iff in Hle. congruence.
Qed.

Lemma argsort_from_spec (len s : nat) :
  StronglySorted ascends
    (fold_right (argsort_insert priority) [] (seq s len))
  /\ (forall k, In k (fold_right (argsort_insert priority) [] (seq s len))
                <-> (s <= k < s + len)%nat).
Proof.
  revert s. induction len as [|len IH]; intros s; simpl.
  - split; [constructor|]. intros k. split; [tauto|lia].
  - destruct (IH (S s)) as [Hs Hin]. split.
    + apply argsort_insert_sorted; [exact Hs|].
      apply List.Forall_forall. intros k Hk. apply Hin in Hk. lia.
    + intros k. rewrite argsort_insert_In, Hin. lia.
Qed.

Lemma argsort_spec :
  StronglySorted (fun a b => ascends b a) (rev (argsort priority))
  /\ (forall k, (k < length priority)%nat -> In k (rev (argsort priority))).
Proof.
  destruct (argsort_from_spec (length priority) 0) as [Hs Hin].
  split.
  - now apply sorted_rev.
  - intros k Hk. apply in_rev. rewrite rev_involutive. apply Hin. lia.
Qed.

End Argsort.

(** *** [find_peaks] *)

Lemma find_peaks_candidates (x : list Q) (height : Q) (distance : nat) :
  find_peaks x height distance
  = mask_select (candidates x height)
      (select_in_order (candidates x height) distance
         (rev (argsort (map (fun p => nth p x 0) (candidates x height))))).
Proof.
  unfold find_peaks, candidates, select_by_peak_distance, select_by_height.
  now rewrite map_map, mask_select_map.
Qed.

Lemma candidates_spec (x : list Q) (height : Q) (p : nat) :
  In p (candidates x height) <-> flat_peak x p /\ height <= nth p x 0.
Proof.
  unfold candidates. rewrite filter_In, Qle_bool_iff.
  destruct (local_maxima_1d_sound x) as [Hall _].
  rewrite List.Forall_forall in Hall.
  split; intros [H1 H2]; split; auto.
  now apply local_maxima_1d_complete.
Qed.

Lemma candidates_sorted (x : list Q) (height : Q) :
  StronglySorted lt (candidates x height).
Proof.
  unfold candidates. apply filter_sorted. apply local_maxima_1d_sound.
Qed.

(** The distance selection over the candidates, for any complete
    processing order sorted by a relation [R] on positions. *)
Lemma distance_selection_spec (x : list Q) (height : Q) (distance : nat)
    (R : nat -> nat -> Prop) (order : list nat) :
  let cands := candidates x height in
  StronglySorted R order ->
  (forall i, (i < length cands)%nat -> In i order) ->
  let ps := mask_select cands (select_in_order cands distance order) in
  StronglySorted lt ps
  /\ (forall p, In p ps -> flat_peak x p /\ height <= nth p x 0)
  /\ (forall p q, In p ps -> In q ps -> (p < q)%nat -> (p + distance <= q)%nat)
  /\ (forall c, flat_peak x c -> height <= nth c x 0 -> ~ In c ps ->
        exists i j, (i < length cands)%nat /\ (j < length cands)%nat
          /\ nth i cands 0%nat = c
          /\ In (nth j cands 0%nat) ps
          /\ closer_than distance (nth j cands 0%nat) c
          /\ R j i).
Proof.
  intros cands Hord Hall ps.
  assert (Hsorted : StronglySorted lt cands) by apply candidates_sorted.
  destruct (select_in_order_spec cands distance Hsorted R order Hord Hall)
    as (Hlen & Hfar & Hnms).
  subst ps. set (keep := select_in_order cands distance order) in *.
  split; [now apply mask_select_sorted|].
  split; [|split].
  - intros p Hp. apply candidates_spec. eapply mask_select_incl; eauto.
  - intros p q Hp Hq Hpq.
    apply (In_mask_select cands keep p 0%nat) in Hp as (i & Hi & <- & Hki).
    apply (In_mask_select cands keep q 0%nat) in Hq as (j & Hj & <- & Hkj).
    pose proof (Hfar i j Hi Hj Hki Hkj) as Hnc.
    unfold close, closer_than in Hnc.
    destruct (Nat.eq_dec i j) as [->|Hne]; [lia|].
    destruct (Z_lt_ge_dec
                (Z.abs (Z.of_nat (nth i cands 0%nat)
                        - Z.of_nat (nth j cands 0%nat)))
                (Z.of_nat distance)) as [Hd|Hd]; [tauto|lia].
  - intros c Hflat Hh Hnot.
    assert (Hc : In c cands) by (apply candidates_spec; now split).
    destruct (In_nth cands c 0%nat Hc) as (i & Hi & Hic).
    assert (Hki : nth i keep false = false).
    { destruct (nth i keep false) eqn:E; [|reflexivity].
      exfalso. apply Hnot. apply (In_mask_select cands keep c 0%nat).
      exists i. auto. }
    destruct (Hnms i Hi Hki) as (j & Hj & Hkj & [Hne Hd] & Hr).
    exists i, j. split; [exact Hi|]. split; [exact Hj|]. split; [exact Hic|].
    split.
    { apply (In_mask_select cands keep _ 0%nat). exists j. auto. }
    split; [|exact Hr].
    rewrite <- Hic. unfold closer_than in *. lia.
Qed.

(** [find_peaks] for any height threshold and minimal distance. *)
Lemma find_peaks_spec (x : list Q) (height : Q) (distance : nat) :
  let ps := find_peaks x height distance in
  StronglySorted lt ps
  /\ (forall p, In p ps -> flat_peak x p /\ height <= nth p x 0)
  /\ (forall p q, In p ps -> In q ps -> (p < q)%nat -> (p + distance <= q)%nat)
  /\ (forall c, flat_peak x c -> height <= nth c x 0 -> ~ In c ps ->
        exists p, In p ps /\ closer_than distance p c
                  /\ (nth c x 0 < nth p x 0
                      \/ (nth c x 0 == nth p x 0 /\ (c < p)%nat))).
Proof.
  intros ps. subst ps. rewrite find_peaks_candidates.
  set (cands := candidates x height).
  set (priority := map (fun p => nth p x 0) cands).
  destruct (argsort_spec priority) as [Hord Hallpos].
  destruct (distance_selection_spec x height distance
              (fun a b => ascends priority b a) (rev (argsort priority)) Hord)
    as (Hs & Hflat & Hfar & Hnms).
  { intros i Hi. apply Hallpos. subst priority. now rewrite length_map. }
  fold cands in Hs, Hflat, Hfar, Hnms.
  split; [exact Hs|]. split; [exact Hflat|]. split; [exact Hfar|].
  intros c Hc Hh Hnot.
  destruct (Hnms c Hc Hh Hnot) as (i & j & Hi & Hj & Hic & Hin & Hd & Hasc).
  exists (nth j cands 0%nat). split; [exact Hin|]. split; [exact Hd|].
  unfold ascends in Hasc. subst priority.
  rewrite !(nth_map_lt (fun p => nth p x 0) cands _ 0%nat) in Hasc by assumption.
  rewrite Hic in Hasc.
  destruct Hasc as [?|[Heq Hij]]; [now left|right].
  split; [exact Heq|]. rewrite <- Hic.
  apply sorted_nth_lt; [apply candidates_sorted|exact Hij|exact Hj].
Qed.

(** The same selection when the candidates are visited in any order of
    non-increasing height, whatever the order among equal heights: spacing
    and heights hold, and a discarded candidate has a retained peak of at
    least its height closer than [distance]. *)
Lemma distance_selection_any_ties (x : list Q) (height : Q) (distance : nat)
    (order : list nat) :
  let cands := candidates x height in
  StronglySorted
    (fun j i => nth (nth i cands 0%nat) x 0 <= nth (nth j cands 0%nat) x 0)
    order ->
  (forall i, (i < length cands)%nat -> In i order) ->
  let ps := mask_select cands (select_in_order cands distance order) in
  StronglySorted lt ps
  /\ (forall p, In p ps -> flat_peak x p /\ height <= nth p x 0)
  /\ (forall p q, In p ps -> In q ps -> (p < q)%nat -> (p + distance <= q)%nat)
  /\ (forall c, flat_peak x c -> height <= nth c x 0 -> ~ In c ps ->
        exists p, In p ps /\ closer_than distance p c
                  /\ nth c x 0 <= nth p x 0).
Proof.
  intros cands Hord Hall ps.
  destruct (distance_selection_spec x height distance _ order Hord Hall)
    as (Hs & Hflat & Hfar & Hnms).
  split; [exact Hs|]. split; [exact Hflat|]. split; [exact Hfar|].
  intros c Hc Hh Hnot.
  destruct (Hnms c Hc Hh Hnot) as (i & j & Hi & Hj & Hic & Hin & Hd & Hr).
  exists (nth j cands 0%nat). split; [exact Hin|]. split; [exact Hd|].
  fold cands in Hic. now rewrite Hic in Hr.
Qed.

(** C1 (as the code has it).  For every energy envelope the Peak Picker
    [find_peaks(energy, height=0.2, distance=5)] returns an ascending list
    of frame indices; each is the midpoint of a flat peak (a run of equal
    samples bordered by strictly lower ones, a strict local maximum when the
    run has one sample) with value at least 0.2; two returned peaks are at
    least 5 frames apart; and a flat peak of value at least 0.2 that is not
    returned lies closer than 5 frames to a returned peak that is strictly
    higher, or equally high and later. *)
Theorem peak_picker_spec (energy : list Q) :
  let peaks := find_peaks energy 0.2 5 in
  StronglySorted lt peaks
  /\ (forall p, In p peaks -> flat_peak energy p /\ 0.2 <= nth p energy 0)
  /\ (forall p q, In p peaks -> In q peaks -> (p < q)%nat -> (p + 5 <= q)%nat)
  /\ (forall c, flat_peak energy c -> 0.2 <= nth c energy 0 -> ~ In c peaks ->
        exists p, In p peaks /\ closer_than 5 p c
                  /\ (nth c energy 0 < nth p energy 0
                      \/ (nth c energy 0 == nth p energy 0 /\ (c < p)%nat))).
Proof. exact (find_peaks_spec energy 0.2 5). Qed.

(** Counterexample to C1 as stated.  The envelope of
    [Samples.click_waveform] is [0, 1, 1, 0]: the Peak Picker returns
    frame 1, which is not a strict local maximum (frame 2 is as high).  The
    envelope of [Samples.twin_bursts_waveform] is
    [0.25, 1, 0.75, 0.25, 1, 0.75, 0, 0]: its two candidates, frames 1 and
    4, have exactly equal energy and are 3 frames apart, and the Peak Picker
    keeps the later one. *)
Lemma peak_picker_flat_and_tie :
  (exists energy,
      FrameEnergy.normalize (FrameEnergy.frame_energy Samples.click_waveform)
      = Ok energy
      /\ Forall2 Qeq energy [0; 1; 1; 0]
      /\ find_peaks energy 0.2 5 = [1%nat]
      /\ ~ strict_local_max energy 1)
  /\ (exists energy,
      FrameEnergy.normalize
        (FrameEnergy.frame_energy Samples.twin_bursts_waveform)
      = Ok energy
      /\ Forall2 Qeq energy [0.25; 1; 0.75; 0.25; 1; 0.75; 0; 0]
      /\ candidates energy 0.2 = [1%nat; 4%nat]
      /\ nth 1 energy 0 == nth 4 energy 0
      /\ find_peaks energy 0.2 5 = [4%nat]).
Proof.
  split.
  - eexists. split; [vm_compute; reflexivity|].
    split; [repeat constructor|].
    split; [vm_compute; reflexivity|].
    intros (_ & _ & _ & H). vm_compute in H. discriminate.
  - eexists. split; [vm_compute; reflexivity|].
    split; [repeat constructor|].
    split; [vm_compute; reflexivity|].
    split; [reflexivity|vm_compute; reflexivity].
Qed.

End ScipyFacts.

(** ** Report Assembler and entry points *)

Module ReportFacts.
Import Py PyFacts FrameEnergy FrameEnergyFacts Scipy PeakSpec ScipyFacts.
Import Classifier Report.
Local Open Scope Q_scope.
Local Arguments Nat.div _ _ : simpl never.

(** *** Feature Aligner *)

Lemma frame_index_clamp (peak : nat) (c : list Q) :
  c <> [] ->
  frame_index peak c = Z.of_nat (Nat.min peak (length c - 1))
  /\ (Nat.min peak (length c - 1) < length c)%nat.
Proof.
  intros Hc. unfold frame_index. destruct c as [|a c]; [congruence|].
  simpl length. lia.
Qed.

Lemma zcr_at_spec (z : list Q) (idx : nat) :
  zcr_at z (Z.of_nat idx)
  = Ok (if (idx <? length z)%nat then nth idx z 0 else 0).
Proof.
  unfold zcr_at.
  destruct (Z.ltb_spec (Z.of_nat idx) (Z.of_nat (length z)));
    destruct (Nat.ltb_spec idx (length z)); try lia; [|reflexivity].
  now apply index_in_range.
Qed.

(** C3 (as the code has it).  The Feature Aligner clamps one index, against
    the centroid array: for a non-empty centroid array and any peak index,
    with [idx = min(peak, len(centroids) - 1)], both variants read the
    centroid at [idx] without an out-of-range error; the Extended variant
    reads the rolloff at the same [idx] when [idx] lies within the rolloff
    array, and takes the zero-crossing rate at [idx] when [idx] lies within
    that array and 0 otherwise.  When the three arrays have the same length
    each feature is the value at [min(peak, length - 1)] of its own array. *)
Theorem feature_aligner_clamp (T : Transform) (peak : nat) :
  spectral_centroids T <> [] ->
  let idx := Nat.min peak (length (spectral_centroids T) - 1) in
  align_basic T peak = Ok (nth idx (spectral_centroids T) 0)
  /\ ((idx < length (spectral_rolloff T))%nat ->
        align_live T peak
        = Ok (nth idx (spectral_centroids T) 0,
              nth idx (spectral_rolloff T) 0,
              if (idx <? length (zcr T))%nat then nth idx (zcr T) 0 else 0))
  /\ (length (spectral_rolloff T) = length (spectral_centroids T) ->
      length (zcr T) = length (spectral_centroids T) ->
        align_live T peak
        = Ok (nth (Nat.min peak (length (spectral_centroids T) - 1))
                  (spectral_centroids T) 0,
              nth (Nat.min peak (length (spectral_rolloff T) - 1))
                  (spectral_rolloff T) 0,
              nth (Nat.min peak (length (zcr T) - 1)) (zcr T) 0)).
Proof.
  intros Hc idx.
  destruct (frame_index_clamp peak _ Hc) as [Hidx Hlt]. fold idx in Hidx, Hlt.
  assert (Hlive : (idx < length (spectral_rolloff T))%nat ->
            align_live T peak
            = Ok (nth idx (spectral_centroids T) 0,
                  nth idx (spectral_rolloff T) 0,
                  if (idx <? length (zcr T))%nat then nth idx (zcr T) 0 else 0)).
  { intros Hr. unfold align_live. rewrite Hidx.
    rewrite (index_in_range _ _ 0 Hlt), (index_in_range _ _ 0 Hr). simpl.
    now rewrite zcr_at_spec. }
  split; [|split].
  - unfold align_basic. rewrite Hidx. now apply index_in_range.
  - exact Hlive.
  - intros Hr Hz. rewrite Hr, Hz. fold idx. rewrite Hlive by lia.
    destruct (Nat.ltb_spec idx (length (zcr T))); [reflexivity|lia].
Qed.

Lemma feature_aligner_clamp_witness :
  spectral_centroids (Samples.flat_transform 100 3) <> []
  /\ align_live (Samples.flat_transform 100 3) 7 = Ok (440, 900, 0.05).
Proof.
  assert (H : spectral_centroids (Samples.flat_transform 100 3) <> [])
    by discriminate.
  split; [exact H|].
  apply (feature_aligner_clamp (Samples.flat_transform 100 3) 7 H);
    reflexivity.
Defined.

(** C3 fails as stated.  With four centroid frames and two zero-crossing
    frames, peak 5 gets the zero-crossing rate 0, not the last entry 0.4 of
    the zero-crossing array; and with an empty feature array the aligner
    raises [IndexError]. *)
Lemma feature_aligner_not_per_array :
  align_live Samples.ragged_transform 5 = Ok (400, 4000, 0)
  /\ nth (Nat.min 5 (length (zcr Samples.ragged_transform) - 1))
         (zcr Samples.ragged_transform) 0 = 0.4
  /\ ~ 0 == 0.4
  /\ align_basic Samples.empty_transform 0 = Raise IndexError.
Proof.
  split; [reflexivity|]. split; [reflexivity|]. split; [|reflexivity].
  intros H. vm_compute in H. discriminate.
Qed.

(** *** Unfolding the entry points *)

Section Runs.

Context (N : Numerics).

Lemma analyze_audio_inv (y : list Q) (sr : positive) (T : Transform)
    (r : AnalysisResult SoundEvent) :
  analyze_audio N y sr T = Ok r ->
  exists energy db evs spec,
    normalize (frame_energy y) = Ok energy
    /\ max_decibels N y = Ok db
    /\ basic_events N sr energy T (find_peaks energy 0.2 5) = Ok evs
    /\ freq_spectrum_basic N sr (magnitude T) = Ok spec
    /\ detectedSounds r = length (find_peaks energy 0.2 5)
    /\ maxDecibels r = round_decibel N db 1
    /\ soundEvents r = Py.prefix (sort_desc amplitude evs) 10
    /\ frequencySpectrum r = spec.
Proof.
  unfold analyze_audio.
  destruct (normalize (frame_energy y)) as [energy|] eqn:E1; [|discriminate].
  cbn [bind].
  destruct (max_decibels N y) as [db|] eqn:E2; [|discriminate]. cbn [bind].
  destruct (basic_events N sr energy T (find_peaks energy 0.2 5))
    as [evs|] eqn:E3; [|discriminate]. cbn [bind].
  destruct (freq_spectrum_basic N sr (magnitude T)) as [spec|] eqn:E4;
    [|discriminate]. cbn [bind].
  intros [= <-]. exists energy, db, evs, spec. simpl. repeat split; auto.
Qed.

Lemma analyze_audio_run (y : list Q) (sr : positive) (T : Transform)
    (energy : list Q) (db : decibel) (evs : list SoundEvent)
    (spec : list SpectrumPoint) :
  normalize (frame_energy y) = Ok energy ->
  max_decibels N y = Ok db ->
  basic_events N sr energy T (find_peaks energy 0.2 5) = Ok evs ->
  freq_spectrum_basic N sr (magnitude T) = Ok spec ->
  exists r, analyze_audio N y sr T = Ok r
    /\ detectedSounds r = length (find_peaks energy 0.2 5)
    /\ maxDecibels r = round_decibel N db 1
    /\ soundEvents r = Py.prefix (sort_desc amplitude evs) 10
    /\ frequencySpectrum r = spec.
Proof.
  intros E1 E2 E3 E4. unfold analyze_audio.
  rewrite E1. cbn [bind]. rewrite E2. cbn [bind]. rewrite E3. cbn [bind].
  rewrite E4. cbn [bind]. eexists. split; [reflexivity|]. simpl. auto.
Qed.

Lemma analyze_audio_spectrum_raises (y : list Q) (sr : positive)
    (T : Transform) (energy : list Q) (db : decibel) (evs : list SoundEvent)
    (e : exn) :
  normalize (frame_energy y) = Ok energy ->
  max_decibels N y = Ok db ->
  basic_events N sr energy T (find_peaks energy 0.2 5) = Ok evs ->
  freq_spectrum_basic N sr (magnitude T) = Raise e ->
  analyze_audio N y sr T = Raise e.
Proof.
  intros E1 E2 E3 E4. unfold analyze_audio.
  rewrite E1. cbn [bind]. rewrite E2. cbn [bind]. rewrite E3. cbn [bind].
  now rewrite E4.
Qed.

Lemma generate_live_analysis_inv (y : list Q) (sr : positive) (T : Transform)
    (r : AnalysisResult LiveSoundEvent) :
  generate_live_analysis N y sr T = Ok r ->
  exists energy db evs spec,
    normalize (frame_energy y) = Ok energy
    /\ live_events N sr energy T (find_peaks energy 0.2 5) = Ok evs
    /\ max_decibels N y = Ok db
    /\ freq_spectrum_live N sr (magnitude T) = Ok spec
    /\ detectedSounds r = length (find_peaks energy 0.2 5)
    /\ maxDecibels r = round_decibel N db 1
    /\ soundEvents r = Py.prefix (sort_desc live_amplitude evs) 15
    /\ frequencySpectrum r = spec.
Proof.
  unfold generate_live_analysis.
  destruct (normalize (frame_energy y)) as [energy|] eqn:E1; [|discriminate].
  cbn [bind].
  destruct (live_events N sr energy T (find_peaks energy 0.2 5))
    as [evs|] eqn:E3; [|discriminate]. cbn [bind].
  destruct (max_decibels N y) as [db|] eqn:E2; [|discriminate]. cbn [bind].
  destruct (freq_spectrum_live N sr (magnitude T)) as [spec|] eqn:E4;
    [|discriminate]. cbn [bind].
  intros [= <-]. exists energy, db, evs, spec. simpl. repeat split; auto.
Qed.

Lemma generate_live_analysis_run (y : list Q) (sr : positive) (T : Transform)
    (energy : list Q) (db : decibel) (evs : list LiveSoundEvent)
    (spec : list SpectrumPoint) :
  normalize (frame_energy y) = Ok energy ->
  live_events N sr energy T (find_peaks energy 0.2 5) = Ok evs ->
  max_decibels N y = Ok db ->
  freq_spectrum_live N sr (magnitude T) = Ok spec ->
  exists r, generate_live_analysis N y sr T = Ok r
    /\ detectedSounds r = length (find_peaks energy 0.2 5)
    /\ maxDecibels r = round_decibel N db 1
    /\ soundEvents r = Py.prefix (sort_desc live_amplitude evs) 15
    /\ frequencySpectrum r = spec.
Proof.
  intros E1 E3 E2 E4. unfold generate_live_analysis.
  rewrite E1. cbn [bind]. rewrite E3. cbn [bind]. rewrite E2. cbn [bind].
  rewrite E4. cbn [bind]. eexists. split; [reflexivity|]. simpl. auto.
Qed.

(** *** Frequency spectrum *)

Lemma spectrum_loop_ok (sr : positive) (mag : list Q) (m : Q)
    (idxs : list nat) :
  np_max mag = Ok m ->
  (forall i, In i idxs -> (i < length mag)%nat) ->
  spectrum_loop N mag (linspace (inject_Z (Z.pos sr)) (length mag)) idxs
  = Ok (map (sampled_point N sr mag m) idxs).
Proof.
  intros Hm. induction idxs as [|i idxs IH]; intros Hin; [reflexivity|].
  assert (Hi : (i < length mag)%nat) by (apply Hin; now left).
  cbn [spectrum_loop map].
  destruct (Nat.ltb_spec i (length mag)) as [_|?]; [|lia].
  rewrite IH by (intros k Hk; apply Hin; now right).
  unfold spectrum_point.
  rewrite (index_in_range _ i 0) by now rewrite length_linspace.
  cbn [bind]. rewrite Hm. cbn [bind].
  unfold sampled_point. destruct (Qltb 0 m); [|reflexivity].
  rewrite (index_in_range _ i 0 Hi). reflexivity.
Qed.

Lemma freq_spectrum_basic_ok (sr : positive) (mag : list Q) (m : Q) :
  np_max mag = Ok m -> (100 <= length mag)%nat ->
  freq_spectrum_basic N sr mag
  = Ok (map (sampled_point N sr mag m)
            (range_items (length mag / 2) (length mag / 100))).
Proof.
  intros Hm Hn. unfold freq_spectrum_basic. rewrite length_linspace.
  unfold range.
  assert (Hstep : (0 < length mag / 100)%nat)
    by (apply Nat.div_str_pos; lia).
  destruct (Nat.eqb_spec (length mag / 100) 0) as [?|_]; [lia|].
  cbn [bind]. apply spectrum_loop_ok; [exact Hm|].
  intros i Hi. apply In_range_items in Hi; [|exact Hstep].
  assert (length mag / 2 <= length mag)%nat by (apply Nat.Div0.div_le_upper_bound; lia).
  lia.
Qed.

Lemma freq_spectrum_basic_short (sr : positive) (mag : list Q) :
  (length mag < 100)%nat -> freq_spectrum_basic N sr mag = Raise ValueError.
Proof.
  intros Hn. unfold freq_spectrum_basic. rewrite length_linspace.
  now rewrite (Nat.div_small _ _ Hn).
Qed.

Lemma freq_spectrum_live_ok (sr : positive) (mag : list Q) (m : Q) :
  np_max mag = Ok m ->
  freq_spectrum_live N sr mag
  = Ok (map (sampled_point N sr mag m)
            (range_items (length mag / 2) (Nat.max 1 (length mag / 200)))).
Proof.
  intros Hm. unfold freq_spectrum_live. rewrite length_linspace.
  unfold range.
  destruct (Nat.eqb_spec (Nat.max 1 (length mag / 200)) 0) as [?|_]; [lia|].
  cbn [bind]. apply spectrum_loop_ok; [exact Hm|].
  intros i Hi. apply In_range_items in Hi; [|lia].
  assert (length mag / 2 <= length mag)%nat by (apply Nat.Div0.div_le_upper_bound; lia).
  lia.
Qed.

Lemma range_len_basic_bounds (n : nat) :
  (100 <= n)%nat -> (50 <= range_len (n / 2) (n / 100) <= 99)%nat.
Proof.
  intros Hn. unfold range_len.
  pose proof (Nat.div_mod_eq n 100) as E1.
  pose proof (Nat.mod_upper_bound n 100 ltac:(lia)) as B1.
  pose proof (Nat.div_mod_eq n 2) as E2.
  pose proof (Nat.mod_upper_bound n 2 ltac:(lia)) as B2.
  set (s := (n / 100)%nat) in *. set (h := (n / 2)%nat) in *.
  assert (Hs : (1 <= s)%nat) by lia.
  destruct (Nat.eqb_spec h 0) as [?|_]; [lia|].
  pose proof (Nat.div_mod_eq (h - 1) s) as E3.
  pose proof (Nat.mod_upper_bound (h - 1) s ltac:(lia)) as B3.
  set (q := ((h - 1) / s)%nat) in *.
  split; nia.
Qed.

Lemma range_len_live_bounds (n : nat) :
  (200 <= n)%nat ->
  (100 <= range_len (n / 2) (Nat.max 1 (n / 200)) <= 199)%nat.
Proof.
  intros Hn. unfold range_len.
  pose proof (Nat.div_mod_eq n 200) as E1.
  pose proof (Nat.mod_upper_bound n 200 ltac:(lia)) as B1.
  pose proof (Nat.div_mod_eq n 2) as E2.
  pose proof (Nat.mod_upper_bound n 2 ltac:(lia)) as B2.
  set (s := (n / 200)%nat) in *. set (h := (n / 2)%nat) in *.
  assert (Hs : (1 <= s)%nat) by lia.
  replace (Nat.max 1 s) with s by lia.
  destruct (Nat.eqb_spec h 0) as [?|_]; [lia|].
  pose proof (Nat.div_mod_eq (h - 1) s) as E3.
  pose proof (Nat.mod_upper_bound (h - 1) s ltac:(lia)) as B3.
  set (q := ((h - 1) / s)%nat) in *.
  split; nia.
Qed.

Lemma In_range_items_iff (stop step i : nat) :
  (0 < step)%nat ->
  In i (range_items stop step) <-> (i < stop)%nat /\ exists k, i = (k * step)%nat.
Proof.
  intros Hs. unfold range_items. rewrite in_map_iff. split.
  - intros (k & <- & Hk). apply in_seq in Hk. split; [|eauto].
    apply range_len_spec; [exact Hs|lia].
  - intros (Hi & k & ->). exists k. split; [reflexivity|].
    apply in_seq. split; [lia|]. simpl. now apply range_len_spec.
Qed.

(** C9 (as the code has it).  For a transform of [n] bins with global
    maximum [m]: the Extended variant returns the entries for the indices
    [0, s, 2s, ...] below [n // 2], with stride [s = max(1, n // 200)]; the
    Basic variant returns them with stride [s = n // 100] when [n >= 100].
    Every entry carries the frequency of its bin rounded to 1 decimal and its
    magnitude divided by [m] and rounded to 3 decimals, or 0 when [m] is 0.
    The number of entries is not fixed: it lies between 50 and 99 for the
    Basic variant, and between 100 and 199 for the Extended variant when
    [n >= 200]. *)
Theorem spectrum_sampling (sr : positive) (mag : list Q) (m : Q) :
  np_max mag = Ok m ->
  is_maximum m mag
  /\ ((100 <= length mag)%nat ->
        freq_spectrum_basic N sr mag
        = Ok (map (sampled_point N sr mag m)
                  (range_items (length mag / 2) (length mag / 100)))
        /\ (50 <= length (range_items (length mag / 2) (length mag / 100))
            <= 99)%nat
        /\ (forall i, In i (range_items (length mag / 2) (length mag / 100))
              <-> (i < length mag / 2)%nat
                  /\ exists k, i = (k * (length mag / 100))%nat))
  /\ freq_spectrum_live N sr mag
     = Ok (map (sampled_point N sr mag m)
               (range_items (length mag / 2) (Nat.max 1 (length mag / 200))))
  /\ (forall i,
        In i (range_items (length mag / 2) (Nat.max 1 (length mag / 200)))
        <-> (i < length mag / 2)%nat
            /\ exists k, i = (k * Nat.max 1 (length mag / 200))%nat)
  /\ ((200 <= length mag)%nat ->
        (100 <= length (range_items (length mag / 2)
                          (Nat.max 1 (length mag / 200))) <= 199)%nat).
Proof.
  intros Hm. split.
  { destruct (np_max_spec _ _ Hm). now split. }
  split.
  { intros Hn. split; [now apply freq_spectrum_basic_ok|]. split.
    - rewrite length_range_items. now apply range_len_basic_bounds.
    - intros i. apply In_range_items_iff. apply Nat.div_str_pos. lia. }
  split; [now apply freq_spectrum_live_ok|]. split.
  { intros i. apply In_range_items_iff. lia. }
  intros Hn. rewrite length_range_items. now apply range_len_live_bounds.
Qed.

End Runs.

Lemma spectrum_sampling_witness :
  np_max (repeat 1 4) = Ok 1
  /\ freq_spectrum_live Samples.sample_numerics 8 (repeat 1 4)
     = Ok (map (sampled_point Samples.sample_numerics 8 (repeat 1 4) 1)
               [0%nat; 1%nat]).
Proof.
  assert (H : np_max (repeat 1 4) = Ok 1) by reflexivity.
  split; [exact H|].
  exact (proj1 (proj2 (proj2
           (spectrum_sampling Samples.sample_numerics 8 (repeat 1 4) 1 H)))).
Defined.

(** C9 fails as stated.  In the Basic variant a transform of 100 bins gives
    50 entries and one of 199 bins gives 99, so the set is not of a fixed
    size; and a transform of 50 bins gives no spectrum at all. *)
Lemma spectrum_size_varies :
  (exists p1 p2,
      freq_spectrum_basic Samples.sample_numerics 44100 (repeat 1 100) = Ok p1
      /\ freq_spectrum_basic Samples.sample_numerics 44100 (repeat 1 199)
         = Ok p2
      /\ length p1 = 50%nat /\ length p2 = 99%nat)
  /\ freq_spectrum_basic Samples.sample_numerics 44100 (repeat 1 50)
     = Raise ValueError.
Proof.
  split; [|vm_compute; reflexivity].
  eexists. eexists.
  split; [vm_compute; reflexivity|].
  split; [vm_compute; reflexivity|].
  split; reflexivity.
Qed.

(** *** Empty and short waveforms *)

(** C4 (as the code has it).  For an empty waveform the energy envelope is
    empty and taking its maximum raises: both entry points return the error
    report, whatever the sample rate and the transform. *)
Theorem empty_waveform_fails (N : Numerics) (sr : positive) (T : Transform) :
  frame_energy [] = []
  /\ normalize (frame_energy []) = Raise ValueError
  /\ analyze_audio N [] sr T = Raise ValueError
  /\ generate_live_analysis N [] sr T = Raise ValueError.
Proof. repeat split. Qed.

(** C4 fails as stated: on the empty waveform [analyze_audio] and
    [generate_live_analysis] return no success report. *)
Lemma empty_waveform_no_report :
  (~ exists r,
       analyze_audio Samples.sample_numerics [] 44100 Samples.empty_transform
       = Ok r /\ duration r == 0 /\ detectedSounds r = 0%nat)
  /\ (~ exists r,
       generate_live_analysis Samples.sample_numerics [] 44100
         Samples.empty_transform
       = Ok r /\ duration r == 0 /\ detectedSounds r = 0%nat).
Proof.
  split; intros (r & H & _); vm_compute in H; discriminate.
Qed.

Lemma short_envelope (y : list Q) :
  (0 < length y <= 512)%nat -> exists v, normalize (frame_energy y) = Ok [v].
Proof.
  intros Hy.
  assert (E : frame_energy y = [frame_sum frame_length y 0]).
  { unfold frame_energy, frame_energy_with, range_items, range_len, hop_length.
    destruct (Nat.eqb_spec (length y) 0) as [?|_]; [lia|].
    rewrite Nat.div_small by lia. reflexivity. }
  rewrite E. unfold normalize. cbn [np_max fold_left bind].
  destruct (Qltb 0 (frame_sum frame_length y 0)); cbn [bind map]; eauto.
Qed.

Lemma find_peaks_singleton (v height : Q) (distance : nat) :
  find_peaks [v] height distance = [].
Proof. reflexivity. Qed.

Lemma max_decibels_nonempty (N : Numerics) (y : list Q) :
  y <> [] -> exists db, max_decibels N y = Ok db.
Proof.
  intros Hy. unfold max_decibels. destruct y as [|s y]; [congruence|].
  cbn [map np_max bind]. destruct (Qltb 0 _); cbn [bind]; eauto.
Qed.

(** C10.  For every non-empty waveform of fewer than 100 samples (whose
    transform has as many bins): the stride [len(frequency) // 100] of the
    Basic variant is 0, its sampling loop raises [ValueError] and
    [analyze_audio] returns the error report, while the Extended variant,
    whose stride is [max(1, len(frequency) // 200) = 1], builds its spectrum
    and [generate_live_analysis] returns a success report. *)
Theorem short_waveform_stride (N : Numerics) (y : list Q) (sr : positive)
    (T : Transform) :
  (0 < length y)%nat -> (length y < 100)%nat ->
  length (magnitude T) = length y ->
  (length (linspace (inject_Z (Z.pos sr)) (length (magnitude T))) / 100 = 0)%nat
  /\ freq_spectrum_basic N sr (magnitude T) = Raise ValueError
  /\ analyze_audio N y sr T = Raise ValueError
  /\ Nat.max 1
       (length (linspace (inject_Z (Z.pos sr)) (length (magnitude T))) / 200)
     = 1%nat
  /\ (exists pts, freq_spectrum_live N sr (magnitude T) = Ok pts)
  /\ (exists r, generate_live_analysis N y sr T = Ok r).
Proof.
  intros Hpos Hshort Hmag.
  destruct (short_envelope y) as [v Hnorm]; [lia|].
  destruct (max_decibels_nonempty N y) as [db Hdb].
  { destruct y; [simpl in Hpos; lia|discriminate]. }
  assert (Hbasic : freq_spectrum_basic N sr (magnitude T) = Raise ValueError)
    by (apply freq_spectrum_basic_short; lia).
  destruct (np_max_nonempty (magnitude T)) as [m Hm].
  { destruct (magnitude T); [simpl in Hmag; lia|discriminate]. }
  pose proof (freq_spectrum_live_ok N sr (magnitude T) m Hm) as Hlive.
  rewrite length_linspace.
  split; [apply Nat.div_small; lia|].
  split; [exact Hbasic|].
  split.
  { apply (analyze_audio_spectrum_raises N y sr T [v] db []); auto. }
  split; [rewrite Nat.div_small by lia; reflexivity|].
  split; [eauto|].
  destruct (generate_live_analysis_run N y sr T [v] db [] _ Hnorm
              eq_refl Hdb Hlive) as (r & Hr & _).
  eauto.
Qed.

Lemma short_waveform_stride_witness :
  (0 < length [1; 0; 1])%nat /\ (length [1; 0; 1] < 100)%nat
  /\ analyze_audio Samples.sample_numerics [1; 0; 1] 44100
       (Samples.flat_transform 3 1) = Raise ValueError
  /\ exists r, generate_live_analysis Samples.sample_numerics [1; 0; 1] 44100
                 (Samples.flat_transform 3 1) = Ok r.
Proof.
  assert (H1 : (0 < length [1; 0; 1])%nat) by (simpl; lia).
  assert (H2 : (length [1; 0; 1] < 100)%nat) by (simpl; lia).
  split; [exact H1|]. split; [exact H2|].
  destruct (short_waveform_stride Samples.sample_numerics [1; 0; 1] 44100
              (Samples.flat_transform 3 1) H1 H2 eq_refl)
    as (_ & _ & Hb & _ & _ & Hl).
  split; [exact Hb|exact Hl].
Defined.

(** *** Ranking *)

Section Ranking.

Context {A : Type} (key : A -> Q).

Local Abbreviation descending := (fun a b : A => key b <= key a).
Local Abbreviation with_key q := (fun a : A => Qeq_bool (key a) q).

Lemma insert_desc_perm (a : A) (l : list A) :
  Permutation (insert_desc key a l) (a :: l).
Proof.
  induction l as [|b l IH]; simpl; [reflexivity|].
  destruct (Qltb (key a) (key b)); [|reflexivity].
  rewrite IH. apply perm_swap.
Qed.

Lemma sort_desc_perm (l : list A) : Permutation (sort_desc key l) l.
Proof.
  induction l as [|a l IH]; simpl; [reflexivity|].
  fold (sort_desc key l). rewrite insert_desc_perm. now constructor.
Qed.

Lemma insert_desc_sorted (a : A) (l : list A) :
  StronglySorted descending l ->
  StronglySorted descending (insert_desc key a l).
Proof.
  intros Hs. induction Hs as [|b l Hs IH Hb]; simpl.
  - repeat constructor.
  - destruct (Qltb (key a) (key b)) eqn:E.
    + apply Qltb_lt in E. constructor; [exact IH|].
      rewrite List.Forall_forall in *. intros c Hc.
      apply (Permutation_in _ (insert_desc_perm a l)) in Hc as [<-|Hc].
      * now apply Qlt_le_weak.
      * now apply Hb.
    + apply Qltb_ge in E. constructor; [now constructor|].
      constructor; [exact E|].
      rewrite List.Forall_forall in *. intros c Hc.
      apply Qle_trans with (key b); [now apply Hb|exact E].
Qed.

Lemma sort_desc_sorted (l : list A) :
  StronglySorted descending (sort_desc key l).
Proof.
  induction l as [|a l IH]; simpl; [constructor|].
  now apply insert_desc_sorted.
Qed.

Lemma insert_desc_filter (q : Q) (a : A) (l : list A) :
  List.filter (with_key q) (insert_desc key a l)
  = List.filter (with_key q) (a :: l).
Proof.
  induction l as [|b l IH]; [reflexivity|].
  cbn [insert_desc].
  destruct (Qltb (key a) (key b)) eqn:E; [|reflexivity].
  apply Qltb_lt in E.
  cbn [List.filter] in *. rewrite IH.
  destruct (Qeq_bool (key a) q) eqn:Ea; [|reflexivity].
  destruct (Qeq_bool (key b) q) eqn:Eb; [|reflexivity].
  apply Qeq_bool_eq in Ea, Eb. rewrite Ea, Eb in E.
  exfalso. exact (Qlt_irrefl _ E).
Qed.

Lemma sort_desc_stable (q : Q) (l : list A) :
  List.filter (with_key q) (sort_desc key l) = List.filter (with_key q) l.
Proof.
  induction l as [|a l IH]; [reflexivity|].
  cbn [sort_desc fold_right]. fold (sort_desc key l).
  rewrite insert_desc_filter. cbn [List.filter]. now rewrite IH.
Qed.

Lemma In_firstn (n : nat) (l : list A) (a : A) :
  In a (firstn n l) -> In a l.
Proof.
  revert n. induction l as [|b l IH]; intros [|n]; simpl; try tauto.
  intros [?|?]; [now left|right; eauto].
Qed.

Lemma firstn_sorted (R : A -> A -> Prop) (n : nat) (l : list A) :
  StronglySorted R l -> StronglySorted R (firstn n l).
Proof.
  intros Hs. revert n. induction Hs as [|a l Hs IH Ha]; intros [|n]; simpl;
    try constructor; auto.
  rewrite List.Forall_forall in *. intros b Hb. apply Ha.
  eapply In_firstn; eauto.
Qed.

(** The ranking step of both reports: [l.sort(key, reverse=True)] followed
    by [l[:n]]. *)
Lemma prefix_sort_desc_ranked (n : nat) (evs : list A) :
  ranked_top n key evs (Py.prefix (sort_desc key evs) n)
  /\ (length (Py.prefix (sort_desc key evs) n) <= n)%nat
  /\ StronglySorted descending (Py.prefix (sort_desc key evs) n).
Proof.
  split; [|split].
  - exists (sort_desc key evs).
    split; [apply sort_desc_perm|]. split; [apply sort_desc_sorted|].
    split; [intros q; apply sort_desc_stable|reflexivity].
  - unfold Py.prefix. rewrite length_firstn. lia.
  - apply firstn_sorted, sort_desc_sorted.
Qed.

End Ranking.

(** C8.  Whenever an entry point returns a report, its sound-event list is
    obtained from the events built for the detected peaks, in peak order, by
    a stable sort on amplitude in non-increasing order (events of equal
    amplitude keep their peak order) followed by truncation to the first 10
    events in the Basic report and the first 15 in the Extended report; the
    list is therefore sorted by non-increasing amplitude and has at most 10,
    respectively 15, entries. *)
Theorem sound_events_ranked (N : Numerics) (y : list Q) (sr : positive)
    (T : Transform) :
  (forall r, analyze_audio N y sr T = Ok r ->
     exists energy evs,
       normalize (frame_energy y) = Ok energy
       /\ basic_events N sr energy T (find_peaks energy 0.2 5) = Ok evs
       /\ ranked_top 10 amplitude evs (soundEvents r)
       /\ (length (soundEvents r) <= 10)%nat
       /\ StronglySorted (fun a b => amplitude b <= amplitude a)
            (soundEvents r))
  /\ (forall r, generate_live_analysis N y sr T = Ok r ->
     exists energy evs,
       normalize (frame_energy y) = Ok energy
       /\ live_events N sr energy T (find_peaks energy 0.2 5) = Ok evs
       /\ ranked_top 15 live_amplitude evs (soundEvents r)
       /\ (length (soundEvents r) <= 15)%nat
       /\ StronglySorted (fun a b => live_amplitude b <= live_amplitude a)
            (soundEvents r)).
Proof.
  split; intros r Hr.
  - apply analyze_audio_inv in Hr
      as (energy & db & evs & spec & E1 & _ & E3 & _ & _ & _ & Hev & _).
    exists energy, evs. rewrite Hev.
    split; [exact E1|]. split; [exact E3|].
    apply prefix_sort_desc_ranked.
  - apply generate_live_analysis_inv in Hr
      as (energy & db & evs & spec & E1 & E3 & _ & _ & _ & _ & Hev & _).
    exists energy, evs. rewrite Hev.
    split; [exact E1|]. split; [exact E3|].
    apply prefix_sort_desc_ranked.
Qed.

(** On [Samples.two_clicks_waveform] the Basic report lists the louder,
    later event first. *)
Lemma sound_events_ranked_witness :
  exists r,
    analyze_audio Samples.sample_numerics Samples.two_clicks_waveform 44100
      (Samples.flat_transform 6144 13) = Ok r
    /\ map time (soundEvents r)
       = [inject_Z 4096 / inject_Z 44100; inject_Z 512 / inject_Z 44100]
    /\ exists energy evs,
         normalize (frame_energy Samples.two_clicks_waveform) = Ok energy
         /\ basic_events Samples.sample_numerics 44100 energy
              (Samples.flat_transform 6144 13) (find_peaks energy 0.2 5)
            = Ok evs
         /\ ranked_top 10 amplitude evs (soundEvents r)
         /\ (length (soundEvents r) <= 10)%nat
         /\ StronglySorted (fun a b => amplitude b <= amplitude a)
              (soundEvents r).
Proof.
  eexists. split; [vm_compute; reflexivity|].
  split; [reflexivity|].
  apply (proj1 (sound_events_ranked Samples.sample_numerics
                  Samples.two_clicks_waveform 44100
                  (Samples.flat_transform 6144 13))).
  vm_compute. reflexivity.
Defined.

(** *** Silence *)

Lemma nth_all_zero (l : list Q) (k : nat) :
  Forall (fun v => v == 0) l -> nth k l 0 == 0.
Proof.
  intros H. destruct (Nat.lt_ge_cases k (length l)) as [Hk|Hk].
  - rewrite List.Forall_forall in H. apply H. now apply nth_In.
  - now rewrite nth_overflow.
Qed.

Lemma frame_energy_silent (y : list Q) :
  Forall (fun s => s == 0) y -> Forall (fun e => e == 0) (frame_energy y).
Proof.
  intros Hy. unfold frame_energy, frame_energy_with.
  apply List.Forall_forall. intros e He.
  apply in_map_iff in He as (a & <- & _).
  unfold frame_sum, sum. apply fold_left_Qplus_zero; [|reflexivity].
  rewrite slice_as_seq, map_map.
  apply List.Forall_forall. intros v Hv.
  apply in_map_iff in Hv as (k & <- & _).
  rewrite Qabs_square, (nth_all_zero y k Hy). reflexivity.
Qed.

Lemma normalize_silent (energy : list Q) :
  energy <> [] -> Forall (fun e => e == 0) energy ->
  normalize energy = Ok energy.
Proof.
  intros Hne Hz.
  destruct (np_max_nonempty energy Hne) as [m Hm].
  destruct (np_max_spec _ _ Hm) as [Hin _].
  rewrite List.Forall_forall in Hz. specialize (Hz m Hin). simpl in Hz.
  unfold normalize. rewrite Hm. cbn [bind].
  assert (E : Qltb 0 m = false) by (apply Qltb_ge; lra).
  now rewrite E.
Qed.

Lemma find_peaks_silent (energy : list Q) (height : Q) (distance : nat) :
  Forall (fun e => e == 0) energy -> find_peaks energy height distance = [].
Proof.
  intros Hz.
  destruct (find_peaks energy height distance) as [|p ps] eqn:E;
    [reflexivity|exfalso].
  destruct (find_peaks_spec energy height distance) as (_ & Hflat & _).
  rewrite E in Hflat.
  destruct (Hflat p (or_introl eq_refl))
    as [(l & r & _ & _ & _ & _ & _ & Hleft & _) _].
  rewrite !(nth_all_zero energy _ Hz) in Hleft.
  exact (Qlt_irrefl _ Hleft).
Qed.

Lemma max_decibels_silent (N : Numerics) (y : list Q) :
  y <> [] -> Forall (fun s => s == 0) y -> max_decibels N y = Ok NegInf.
Proof.
  intros Hne Hz. unfold max_decibels.
  destruct (np_max_nonempty (map Qabs y)) as [m Hm].
  { destruct y; [congruence|discriminate]. }
  destruct (np_max_spec _ _ Hm) as [Hin _].
  apply in_map_iff in Hin as (s & <- & Hs).
  rewrite List.Forall_forall in Hz. specialize (Hz s Hs). simpl in Hz.
  rewrite Hm. cbn [bind].
  assert (E : Qltb 0 (Qabs s) = false).
  { apply Qltb_ge. rewrite Hz. discriminate. }
  now rewrite E.
Qed.

Lemma sampled_point_silent (N : Numerics) (sr : positive) (mag : list Q)
    (m : Q) (idxs : list nat) :
  m == 0 ->
  Forall (fun p => point_magnitude p = 0)
         (map (sampled_point N sr mag m) idxs).
Proof.
  intros Hm. apply List.Forall_forall. intros p Hp.
  apply in_map_iff in Hp as (i & <- & _). unfold sampled_point. simpl.
  assert (E : Qltb 0 m = false) by (apply Qltb_ge; lra).
  now rewrite E.
Qed.

(** C7.  For every silent (all-zero, non-empty) waveform, whose transform
    magnitudes are all zero: the energy envelope is all zero and is left
    unnormalized; the peak list is empty; the event list is empty; the
    max-decibel value is [-inf]; and every spectrum entry has magnitude 0.
    The Extended report is returned with these values for every such
    waveform, and the Basic report for those of at least 100 samples. *)
Theorem silent_waveform (N : Numerics) (y : list Q) (sr : positive)
    (T : Transform) :
  y <> [] ->
  Forall (fun s => s == 0) y ->
  length (magnitude T) = length y ->
  Forall (fun v => v == 0) (magnitude T) ->
  Forall (fun e => e == 0) (frame_energy y)
  /\ normalize (frame_energy y) = Ok (frame_energy y)
  /\ find_peaks (frame_energy y) 0.2 5 = []
  /\ basic_events N sr (frame_energy y) T (find_peaks (frame_energy y) 0.2 5)
     = Ok []
  /\ live_events N sr (frame_energy y) T (find_peaks (frame_energy y) 0.2 5)
     = Ok []
  /\ max_decibels N y = Ok NegInf
  /\ (forall pts, freq_spectrum_basic N sr (magnitude T) = Ok pts ->
        Forall (fun p => point_magnitude p = 0) pts)
  /\ (exists pts, freq_spectrum_live N sr (magnitude T) = Ok pts
        /\ Forall (fun p => point_magnitude p = 0) pts)
  /\ ((100 <= length y)%nat ->
        exists r, analyze_audio N y sr T = Ok r
          /\ detectedSounds r = 0%nat /\ soundEvents r = []
          /\ maxDecibels r = NegInf
          /\ Forall (fun p => point_magnitude p = 0) (frequencySpectrum r))
  /\ (exists r, generate_live_analysis N y sr T = Ok r
        /\ detectedSounds r = 0%nat /\ soundEvents r = []
        /\ maxDecibels r = NegInf
        /\ Forall (fun p => point_magnitude p = 0) (frequencySpectrum r)).
Proof.
  intros Hne Hz Hlen Hmag.
  pose proof (frame_energy_silent y Hz) as Hez.
  assert (Henergy : frame_energy y <> []).
  { intros E. apply (f_equal (@length Q)) in E.
    unfold frame_energy in E. rewrite length_frame_energy in E.
    unfold range_len in E. destruct y; [congruence|]. discriminate. }
  pose proof (normalize_silent _ Henergy Hez) as Hnorm.
  pose proof (find_peaks_silent (frame_energy y) 0.2 5 Hez) as Hpeaks.
  pose proof (max_decibels_silent N y Hne Hz) as Hdb.
  destruct (np_max_nonempty (magnitude T)) as [m Hm].
  { destruct (magnitude T); [|discriminate].
    destruct y; [congruence|discriminate]. }
  assert (Hm0 : m == 0).
  { destruct (np_max_spec _ _ Hm) as [Hin _].
    rewrite List.Forall_forall in Hmag. now apply Hmag. }
  pose proof (freq_spectrum_live_ok N sr _ m Hm) as Hlive.
  assert (Hbasic : forall pts, freq_spectrum_basic N sr (magnitude T) = Ok pts ->
            Forall (fun p => point_magnitude p = 0) pts).
  { intros pts Hp.
    destruct (Nat.lt_ge_cases (length (magnitude T)) 100) as [Hs|Hl].
    - rewrite freq_spectrum_basic_short in Hp by exact Hs. discriminate.
    - rewrite (freq_spectrum_basic_ok N sr _ m Hm Hl) in Hp.
      injection Hp as <-. now apply sampled_point_silent. }
  split; [exact Hez|]. split; [exact Hnorm|]. split; [exact Hpeaks|].
  rewrite Hpeaks.
  split; [reflexivity|]. split; [reflexivity|]. split; [exact Hdb|].
  split; [exact Hbasic|].
  split; [eexists; split; [exact Hlive|now apply sampled_point_silent]|].
  split.
  - intros Hlong.
    assert (Hb := freq_spectrum_basic_ok N sr (magnitude T) m Hm ltac:(lia)).
    assert (Hev : basic_events N sr (frame_energy y) T
                    (find_peaks (frame_energy y) 0.2 5) = Ok [])
      by now rewrite Hpeaks.
    destruct (analyze_audio_run N y sr T _ _ _ _ Hnorm Hdb Hev Hb)
      as (r & Hr & Hn & Hd & He & Hs).
    exists r. split; [exact Hr|]. rewrite Hn, Hd, He, Hs, Hpeaks.
    repeat split. now apply sampled_point_silent.
  - assert (Hev : live_events N sr (frame_energy y) T
                      (find_peaks (frame_energy y) 0.2 5) = Ok [])
      by now rewrite Hpeaks.
    destruct (generate_live_analysis_run N y sr T _ _ _ _ Hnorm Hev Hdb Hlive)
      as (r & Hr & Hn & Hd & He & Hs).
    exists r. split; [exact Hr|]. rewrite Hn, Hd, He, Hs, Hpeaks.
    repeat split. now apply sampled_point_silent.
Qed.

Lemma silent_waveform_witness :
  repeat 0 100 <> []
  /\ Forall (fun s => s == 0) (repeat 0 100)
  /\ exists r,
       analyze_audio Samples.sample_numerics (repeat 0 100) 44100
         {| magnitude := repeat 0 100; spectral_centroids := [0];
            spectral_rolloff := [0]; zcr := [0]; rms := 0 |} = Ok r
       /\ detectedSounds r = 0%nat /\ soundEvents r = []
       /\ maxDecibels r = NegInf
       /\ Forall (fun p => point_magnitude p = 0) (frequencySpectrum r).
Proof.
  assert (H1 : repeat 0 100 <> []) by discriminate.
  assert (H2 : Forall (fun s => s == 0) (repeat 0 100)).
  { apply List.Forall_forall. intros s Hs. apply repeat_spec in Hs.
    rewrite Hs. reflexivity. }
  split; [exact H1|]. split; [exact H2|].
  destruct (silent_waveform Samples.sample_numerics (repeat 0 100) 44100
              {| magnitude := repeat 0 100; spectral_centroids := [0];
                 spectral_rolloff := [0]; zcr := [0]; rms := 0 |}
              H1 H2 eq_refl H2)
    as (_ & _ & _ & _ & _ & _ & _ & _ & Hbasic & _).
  apply Hbasic. rewrite repeat_length. lia.
Defined.

End ReportFacts.

(** ** Further properties of the pipeline *)

Module EnvelopeFacts.
Import Py PyFacts FrameEnergy FrameEnergyFacts Scipy PeakSpec ScipyFacts.
Import Classifier Report ReportFacts.
Local Open Scope Q_scope.
Local Arguments Nat.div _ _ : simpl never.

(** *** The normalized envelope *)

Lemma fold_left_Qplus_base (l : list Q) (a : Q) :
  Forall (fun e => 0 <= e) l -> a <= fold_left Qplus l a.
Proof.
  intros H. revert a. induction H as [|x l Hx _ IH]; intros a; simpl.
  - lra.
  - apply Qle_trans with (a + x); [lra|apply IH].
Qed.

Lemma fold_left_Qplus_ge (l : list Q) (a v : Q) :
  Forall (fun e => 0 <= e) l -> 0 <= a -> In v l -> v <= fold_left Qplus l a.
Proof.
  intros H. revert a. induction H as [|x l Hx Hl IH]; intros a Ha Hin.
  - destruct Hin.
  - simpl. destruct Hin as [->|Hin].
    + apply Qle_trans with (a + v); [lra|now apply fold_left_Qplus_base].
    + apply IH; [lra|exact Hin].
Qed.

Lemma normalize_inv (energy out : list Q) :
  normalize energy = Ok out ->
  exists m, np_max energy = Ok m
    /\ ((0 < m /\ out = map (fun e => e / m) energy)
        \/ (~ 0 < m /\ out = energy)).
Proof.
  unfold normalize. destruct (np_max energy) as [m|] eqn:E; [|discriminate].
  cbn [bind]. destruct (Qltb 0 m) eqn:Hm; cbn [bind]; intros [= <-];
    exists m; split; auto.
  - left. split; [now apply Qltb_lt|reflexivity].
  - right. split; [|reflexivity]. apply Qltb_ge in Hm. lra.
Qed.

Lemma normalize_ok_iff (y : list Q) :
  (exists energy, normalize (frame_energy y) = Ok energy) <-> y <> [].
Proof.
  split.
  - intros [energy H] ->. discriminate.
  - intros Hy. destruct (np_max_nonempty _ (frame_energy_nonempty y Hy)) as [m Hm].
    unfold normalize. rewrite Hm. cbn [bind].
    destruct (Qltb 0 m); cbn [bind]; eauto.
Qed.

Lemma nth_div_map (l : list Q) (m : Q) (k : nat) :
  nth k (map (fun e => e / m) l) 0 == nth k l 0 / m.
Proof.
  destruct (Nat.lt_ge_cases k (length l)) as [Hk|Hk].
  - rewrite (nth_map_lt (fun e => e / m) l k 0 0 Hk). reflexivity.
  - rewrite !nth_overflow by (rewrite ?length_map; lia).
    unfold Qdiv. ring.
Qed.

Lemma normalize_bounds (energy out : list Q) :
  Forall (fun e => 0 <= e) energy ->
  normalize energy = Ok out ->
  length out = length energy
  /\ Forall (fun v => 0 <= v <= 1) out
  /\ (Exists (fun e => 0 < e) energy -> Exists (fun v => v == 1) out)
  /\ (Forall (fun e => e == 0) energy -> out = energy).
Proof.
  intros Hpos Hn.
  destruct (normalize_inv _ _ Hn) as (m & Hm & Hcase).
  destruct (np_max_spec _ _ Hm) as [Hin Hle].
  rewrite List.Forall_forall in Hpos, Hle.
  destruct Hcase as [[Hmpos ->]|[Hmz ->]].
  - split; [now rewrite length_map|]. split; [|split].
    + apply List.Forall_forall. intros v Hv.
      apply in_map_iff in Hv as (e & <- & He).
      specialize (Hpos e He). specialize (Hle e He). simpl in *.
      split.
      * apply Qle_shift_div_l; [exact Hmpos|lra].
      * apply Qle_shift_div_r; [exact Hmpos|lra].
    + intros _. apply List.Exists_exists. exists (m / m). split.
      * apply in_map_iff. exists m. split; [reflexivity|exact Hin].
      * field. lra.
    + intros Hz. exfalso. rewrite List.Forall_forall in Hz.
      specialize (Hz m Hin). simpl in Hz. lra.
  - split; [reflexivity|]. split; [|split].
    + apply List.Forall_forall. intros v Hv.
      specialize (Hpos v Hv). specialize (Hle v Hv). simpl in *. lra.
    + intros Hex. exfalso. apply List.Exists_exists in Hex as (e & He & Hepos).
      specialize (Hle e He). simpl in Hle. lra.
    + reflexivity.
Qed.

(** X1.  Whenever normalization returns, the normalized envelope has one
    value per frame and every value lies in [[0, 1]]; if some frame energy is
    positive, some frame has the value 1; and for a silent waveform the
    envelope is returned unnormalized, all zero. *)
Theorem normalized_envelope_range (y energy : list Q) :
  normalize (frame_energy y) = Ok energy ->
  length energy = range_len (length y) hop_length
  /\ Forall (fun v => 0 <= v <= 1) energy
  /\ (Exists (fun e => 0 < e) (frame_energy y) ->
        Exists (fun v => v == 1) energy)
  /\ (Forall (fun s => s == 0) y ->
        energy = frame_energy y /\ Forall (fun v => v == 0) energy).
Proof.
  intros Hn.
  destruct (normalize_bounds _ _ (frame_energy_nonneg _ _ y) Hn)
    as (Hlen & Hrange & Hone & Hzero).
  split.
  { rewrite Hlen. unfold frame_energy. apply length_frame_energy. }
  split; [exact Hrange|]. split; [exact Hone|].
  intros Hz. pose proof (frame_energy_silent y Hz) as Hez.
  rewrite (Hzero Hez). split; [reflexivity|exact Hez].
Qed.

Lemma normalized_envelope_range_witness :
  exists energy,
    normalize (frame_energy [3; 0; 4]) = Ok energy
    /\ Forall (fun v => 0 <= v <= 1) energy
    /\ Exists (fun v => v == 1) energy.
Proof.
  eexists. split; [vm_compute; reflexivity|].
  destruct (normalized_envelope_range [3; 0; 4] _ eq_refl)
    as (_ & Hrange & Hone & _).
  split; [exact Hrange|]. apply Hone.
  apply Exists_cons_hd. reflexivity.
Defined.

(** *** Where peaks can lie *)

Lemma find_peaks_in_range (x : list Q) (height : Q) (distance p : nat) :
  In p (find_peaks x height distance) -> (1 <= p)%nat /\ (p + 1 < length x)%nat.
Proof.
  intros Hp.
  destruct (find_peaks_spec x height distance) as (_ & Hflat & _).
  destruct (Hflat p Hp) as [(l & r & Hl & Hlr & Hr & -> & _) _].
  pose proof (midpoint_between l r Hlr). lia.
Qed.

Lemma spaced_count (d : nat) (l : list nat) :
  StronglySorted lt l ->
  (forall p q, In p l -> In q l -> (p < q)%nat -> (p + d <= q)%nat) ->
  forall lo hi, (forall p, In p l -> (lo <= p <= hi)%nat) ->
  l <> [] -> (d * (length l - 1) + lo <= hi)%nat.
Proof.
  intros Hs. induction Hs as [|a l Hs IH Ha]; intros Hgap lo hi Hrange Hne;
    [congruence|].
  destruct l as [|b l].
  - simpl. specialize (Hrange a (or_introl eq_refl)). lia.
  - assert (Hlo : forall p, In p (b :: l) -> (a + d <= p <= hi)%nat).
    { intros p Hp. rewrite List.Forall_forall in Ha.
      pose proof (Ha p Hp).
      pose proof (Hgap a p (or_introl eq_refl) (or_intror Hp) ltac:(lia)).
      pose proof (Hrange p (or_intror Hp)). lia. }
    specialize (IH (fun p q Hp Hq => Hgap p q (or_intror Hp) (or_intror Hq))
                   (a + d)%nat hi Hlo ltac:(discriminate)).
    pose proof (Hrange a (or_introl eq_refl)).
    simpl length in *. nia.
Qed.

(** X2.  For every envelope, the peaks found with height 0.2 and distance 5
    are interior frames (never the first or the last frame), hence valid
    indices into the envelope; there are at most [(frames + 2) / 5] of them,
    and none when the envelope has fewer than 3 frames. *)
Theorem peaks_interior_and_few (energy : list Q) :
  (forall p, In p (find_peaks energy 0.2 5) ->
     (1 <= p)%nat /\ (p + 1 < length energy)%nat
     /\ Py.index energy (Z.of_nat p) = Ok (nth p energy 0))
  /\ (5 * length (find_peaks energy 0.2 5) <= length energy + 2)%nat
  /\ ((length energy < 3)%nat -> find_peaks energy 0.2 5 = []).
Proof.
  assert (Hin : forall p, In p (find_peaks energy 0.2 5) ->
                  (1 <= p)%nat /\ (p + 1 < length energy)%nat)
    by (intros p; apply find_peaks_in_range).
  split; [|split].
  - intros p Hp. destruct (Hin p Hp). repeat split; try lia.
    apply index_in_range. lia.
  - destruct (find_peaks energy 0.2 5) as [|a l] eqn:E; [simpl; lia|].
    destruct (find_peaks_spec energy 0.2 5) as (Hs & _ & Hgap & _).
    rewrite E in Hs, Hgap.
    pose proof (spaced_count 5 (a :: l) Hs Hgap 1 (length energy - 2)) as H.
    destruct (Hin a (or_introl eq_refl)).
    assert (5 * (length (a :: l) - 1) + 1 <= length energy - 2)%nat.
    { apply H; [|discriminate]. intros p Hp. destruct (Hin p Hp). lia. }
    simpl length in *. lia.
  - intros Hshort. destruct (find_peaks energy 0.2 5) as [|a l]; [reflexivity|].
    destruct (Hin a (or_introl eq_refl)). lia.
Qed.

End EnvelopeFacts.

Module EventFacts.
Import Py PyFacts FrameEnergy FrameEnergyFacts Scipy PeakSpec ScipyFacts.
Import Classifier Report ReportFacts EnvelopeFacts.
Local Open Scope Q_scope.
Local Arguments Nat.div _ _ : simpl never.

(** *** The error monad over lists *)

Lemma mapM_In {A B : Type} (f : A -> result B) (l : list A) (bs : list B)
    (b : B) :
  mapM f l = Ok bs -> In b bs -> exists a, In a l /\ f a = Ok b.
Proof.
  revert bs. induction l as [|a l IH]; intros bs; simpl.
  - intros [= <-] [].
  - destruct (f a) as [b0|] eqn:Ea; [|discriminate]. cbn [bind].
    destruct (mapM f l) as [bs0|] eqn:El; [|discriminate]. cbn [bind].
    intros [= <-] [<-|Hin].
    + exists a. auto.
    + destruct (IH bs0 eq_refl Hin) as (a' & Ha' & Hf). exists a'. auto.
Qed.

Lemma mapM_length {A B : Type} (f : A -> result B) (l : list A)
    (bs : list B) :
  mapM f l = Ok bs -> length bs = length l.
Proof.
  revert bs. induction l as [|a l IH]; intros bs; simpl.
  - now intros [= <-].
  - destruct (f a) as [b0|]; [|discriminate]. cbn [bind].
    destruct (mapM f l) as [bs0|]; [|discriminate]. cbn [bind].
    intros [= <-]. simpl. now rewrite (IH bs0 eq_refl).
Qed.

Lemma mapM_ok {A B : Type} (f : A -> result B) (l : list A) :
  (forall a, In a l -> exists b, f a = Ok b) -> exists bs, mapM f l = Ok bs.
Proof.
  induction l as [|a l IH]; intros H; simpl; [eauto|].
  destruct (H a (or_introl eq_refl)) as [b Hb]. rewrite Hb. cbn [bind].
  destruct IH as [bs Hbs]; [intros a' Ha'; apply H; now right|].
  rewrite Hbs. cbn [bind]. eauto.
Qed.

Lemma mapM_all_ok {A B : Type} (f : A -> result B) (l : list A)
    (bs : list B) :
  mapM f l = Ok bs -> forall a, In a l -> exists b, f a = Ok b.
Proof.
  revert bs. induction l as [|a l IH]; intros bs; simpl.
  - intros _ a [].
  - destruct (f a) as [b0|] eqn:Ea; [|discriminate]. cbn [bind].
    destruct (mapM f l) as [bs0|] eqn:El; [|discriminate]. cbn [bind].
    intros _ a' [<-|Ha']; [eauto|]. exact (IH bs0 eq_refl a' Ha').
Qed.

Lemma mapM_raise {A B : Type} (f : A -> result B) (l : list A) (e : exn) :
  mapM f l = Raise e -> exists a, In a l /\ f a = Raise e.
Proof.
  induction l as [|a l IH]; simpl; [discriminate|].
  destruct (f a) as [b0|e0] eqn:Ea; cbn [bind].
  - destruct (mapM f l) as [bs0|e1] eqn:El; cbn [bind]; [discriminate|].
    intros [= <-]. destruct (IH eq_refl) as (a' & Ha' & Hf). exists a'. auto.
  - intros [= <-]. exists a. auto.
Qed.

(** *** Where an event comes from *)

Lemma time_pos_inside (y : list Q) (sr : positive) (p : nat) :
  (1 <= p)%nat -> (p * hop_length < length y)%nat ->
  0 < time_pos p sr /\ time_pos p sr < get_duration y sr.
Proof.
  intros Hp Hlt. unfold time_pos, get_duration, Qdiv.
  assert (Hsr : 0 < / inject_Z (Z.pos sr)).
  { apply Qinv_lt_0_compat. rewrite <- (Zlt_Qlt 0). lia. }
  split.
  - apply Qmult_lt_0_compat; [|exact Hsr].
    rewrite <- (Zlt_Qlt 0). unfold hop_length in *. lia.
  - apply Qmult_lt_compat_r; [exact Hsr|].
    rewrite <- Zlt_Qlt. lia.
Qed.

Lemma peak_of_normalized (y energy : list Q) (p : nat) :
  normalize (frame_energy y) = Ok energy ->
  In p (find_peaks energy 0.2 5) ->
  (1 <= p)%nat /\ (p * hop_length < length y)%nat
  /\ Py.index energy (Z.of_nat p) = Ok (nth p energy 0)
  /\ 0.2 <= nth p energy 0 <= 1.
Proof.
  intros Hn Hp.
  destruct (find_peaks_in_range _ _ _ _ Hp) as [H1 H2].
  destruct (normalize_bounds _ _ (frame_energy_nonneg _ _ y) Hn)
    as (Hlen & Hrange & _).
  destruct (find_peaks_spec energy 0.2 5) as (_ & Hflat & _).
  destruct (Hflat p Hp) as [_ Hh].
  split; [exact H1|]. split.
  { apply range_len_spec; [unfold hop_length; lia|].
    unfold frame_energy in Hlen. rewrite length_frame_energy in Hlen. lia. }
  split; [apply index_in_range; lia|].
  split; [exact Hh|].
  rewrite List.Forall_forall in Hrange.
  apply (Hrange (nth p energy 0)). apply nth_In. lia.
Qed.

Lemma to_decibels_finite (N : Numerics) (a : Q) :
  0 < a -> to_decibels N a = Finite (20 * log10 N a).
Proof. intros H. unfold to_decibels. apply Qltb_lt in H. now rewrite H. Qed.

Lemma In_prefix_sort_desc {A : Type} (key : A -> Q) (n : nat) (l : list A)
    (a : A) :
  In a (Py.prefix (sort_desc key l) n) -> In a l.
Proof.
  intros H. unfold Py.prefix in H.
  exact (Permutation_in _ (sort_desc_perm key l) (In_firstn key n _ a H)).
Qed.

(** X3.  In every Basic report, each listed sound event stems from a
    detected peak [p] of the normalized envelope: its amplitude is the
    rounded envelope value at [p], which lies in [[0.2, 1]]; its decibel
    value is therefore finite, never the [-inf] of the guard; its time is
    the rounded position [p * 512 / sr], which lies strictly between 0 and
    the duration of the recording; and its frequency and label come from the
    centroid aligned to [p]. *)
Theorem basic_event_provenance (N : Numerics) (y : list Q) (sr : positive)
    (T : Transform) (r : AnalysisResult SoundEvent) :
  analyze_audio N y sr T = Ok r ->
  exists energy,
    normalize (frame_energy y) = Ok energy
    /\ forall ev, In ev (soundEvents r) ->
         exists p c,
           In p (find_peaks energy 0.2 5)
           /\ align_basic T p = Ok c
           /\ 0.2 <= nth p energy 0 <= 1
           /\ amplitude ev = round N (nth p energy 0) 3
           /\ decibels ev
              = Finite (round N (20 * log10 N (nth p energy 0)) 1)
           /\ time ev = round N (time_pos p sr) 2
           /\ 0 < time_pos p sr < get_duration y sr
           /\ frequency ev = round N c 1
           /\ type ev = classify_basic c.
Proof.
  intros Hr.
  apply analyze_audio_inv in Hr
    as (energy & db & evs & spec & E1 & _ & E3 & _ & _ & _ & Hev & _).
  exists energy. split; [exact E1|]. intros ev Hin.
  rewrite Hev in Hin. apply In_prefix_sort_desc in Hin.
  destruct (mapM_In _ _ _ _ E3 Hin) as (p & Hp & Hbe).
  destruct (peak_of_normalized y energy p E1 Hp) as (H1 & H2 & Hidx & Hrange).
  unfold basic_event in Hbe.
  destruct (align_basic T p) as [c|] eqn:Ec; [|discriminate].
  cbn [bind] in Hbe. rewrite Hidx in Hbe. cbn [bind] in Hbe.
  injection Hbe as <-. exists p, c. simpl.
  rewrite to_decibels_finite by lra.
  split; [exact Hp|]. split; [exact Ec|]. split; [exact Hrange|].
  split; [reflexivity|]. split; [reflexivity|]. split; [reflexivity|].
  split; [now apply time_pos_inside|]. split; reflexivity.
Qed.

Lemma basic_event_provenance_witness :
  exists r,
    analyze_audio Samples.sample_numerics Samples.click_waveform 44100
      (Samples.flat_transform 2048 5) = Ok r
    /\ map decibels (soundEvents r) = [Finite (20 * 0)]
    /\ exists energy,
         normalize (frame_energy Samples.click_waveform) = Ok energy
         /\ forall ev, In ev (soundEvents r) ->
              exists p c,
                In p (find_peaks energy 0.2 5)
                /\ align_basic (Samples.flat_transform 2048 5) p = Ok c
                /\ 0.2 <= nth p energy 0 <= 1
                /\ amplitude ev
                   = round Samples.sample_numerics (nth p energy 0) 3
                /\ decibels ev
                   = Finite (round Samples.sample_numerics
                               (20 * log10 Samples.sample_numerics
                                       (nth p energy 0)) 1)
                /\ time ev
                   = round Samples.sample_numerics (time_pos p 44100) 2
                /\ 0 < time_pos p 44100
                   < get_duration Samples.click_waveform 44100
                /\ frequency ev = round Samples.sample_numerics c 1
                /\ type ev = classify_basic c.
Proof.
  eexists. split; [vm_compute; reflexivity|].
  split; [reflexivity|].
  apply (basic_event_provenance Samples.sample_numerics Samples.click_waveform
           44100 (Samples.flat_transform 2048 5)).
  vm_compute. reflexivity.
Defined.

(** X4.  In every Extended report, each listed sound event stems from a
    detected peak [p]: amplitude, decibels (always finite) and time are as in
    the Basic report, and its frequency, rolloff, zero-crossing rate, label
    and confidence come from the three features aligned to [p]; the
    confidence is one of 0.6, 0.7, 0.8, 0.85 and 0.9. *)
Theorem live_event_provenance (N : Numerics) (y : list Q) (sr : positive)
    (T : Transform) (r : AnalysisResult LiveSoundEvent) :
  generate_live_analysis N y sr T = Ok r ->
  exists energy,
    normalize (frame_energy y) = Ok energy
    /\ forall ev, In ev (soundEvents r) ->
         exists p c ro z,
           In p (find_peaks energy 0.2 5)
           /\ align_live T p = Ok (c, ro, z)
           /\ 0.2 <= nth p energy 0 <= 1
           /\ live_amplitude ev = round N (nth p energy 0) 3
           /\ live_decibels ev
              = Finite (round N (20 * log10 N (nth p energy 0)) 1)
           /\ live_time ev = round N (time_pos p sr) 2
           /\ 0 < time_pos p sr < get_duration y sr
           /\ live_frequency ev = round N c 1
           /\ live_spectral_rolloff ev = round N ro 1
           /\ zero_crossing_rate ev = round N z 3
           /\ (live_type ev, confidence ev) = classify_extended c ro z
           /\ In (confidence ev) [0.8; 0.9; 0.7; 0.85; 0.6].
Proof.
  intros Hr.
  apply generate_live_analysis_inv in Hr
    as (energy & db & evs & spec & E1 & E3 & _ & _ & _ & _ & Hev & _).
  exists energy. split; [exact E1|]. intros ev Hin.
  rewrite Hev in Hin. apply In_prefix_sort_desc in Hin.
  destruct (mapM_In _ _ _ _ E3 Hin) as (p & Hp & Hle).
  destruct (peak_of_normalized y energy p E1 Hp) as (H1 & H2 & Hidx & Hrange).
  unfold live_event in Hle.
  destruct (align_live T p) as [[[c ro] z]|] eqn:Ec; [|discriminate].
  cbn [bind] in Hle.
  destruct (classify_extended c ro z) as [label conf] eqn:Ecl.
  rewrite Hidx in Hle. cbn [bind] in Hle.
  injection Hle as <-. exists p, c, ro, z. simpl.
  rewrite to_decibels_finite by lra.
  assert (Hconf : In conf [0.8; 0.9; 0.7; 0.85; 0.6]).
  { unfold classify_extended in Ecl.
    repeat match type of Ecl with
           | (if ?b then _ else _) = _ => destruct b
           end; injection Ecl as _ <-; simpl; tauto. }
  split; [exact Hp|]. split; [exact Ec|]. split; [exact Hrange|].
  split; [reflexivity|]. split; [reflexivity|]. split; [reflexivity|].
  split; [now apply time_pos_inside|].
  split; [reflexivity|]. split; [reflexivity|]. split; [reflexivity|].
  split; [symmetry; exact Ecl|exact Hconf].
Qed.

Lemma live_event_provenance_witness :
  exists r,
    generate_live_analysis Samples.sample_numerics Samples.click_waveform
      44100 (Samples.flat_transform 2048 5) = Ok r
    /\ map confidence (soundEvents r) = [0.8]
    /\ exists energy,
         normalize (frame_energy Samples.click_waveform) = Ok energy
         /\ forall ev, In ev (soundEvents r) ->
              exists p c ro z,
                In p (find_peaks energy 0.2 5)
                /\ align_live (Samples.flat_transform 2048 5) p
                   = Ok (c, ro, z)
                /\ 0.2 <= nth p energy 0 <= 1
                /\ live_amplitude ev
                   = round Samples.sample_numerics (nth p energy 0) 3
                /\ live_decibels ev
                   = Finite (round Samples.sample_numerics
                               (20 * log10 Samples.sample_numerics
                                       (nth p energy 0)) 1)
                /\ live_time ev
                   = round Samples.sample_numerics (time_pos p 44100) 2
                /\ 0 < time_pos p 44100
                   < get_duration Samples.click_waveform 44100
                /\ live_frequency ev = round Samples.sample_numerics c 1
                /\ live_spectral_rolloff ev
                   = round Samples.sample_numerics ro 1
                /\ zero_crossing_rate ev = round Samples.sample_numerics z 3
                /\ (live_type ev, confidence ev) = classify_extended c ro z
                /\ In (confidence ev) [0.8; 0.9; 0.7; 0.85; 0.6].
Proof.
  eexists. split; [vm_compute; reflexivity|].
  split; [reflexivity|].
  apply (live_event_provenance Samples.sample_numerics Samples.click_waveform
           44100 (Samples.flat_transform 2048 5)).
  vm_compute. reflexivity.
Defined.

End EventFacts.

Module OutcomeFacts.
Import Py PyFacts FrameEnergy FrameEnergyFacts Scipy PeakSpec ScipyFacts.
Import Classifier Report ReportFacts EnvelopeFacts EventFacts Detection.
Local Open Scope Q_scope.
Local Arguments Nat.div _ _ : simpl never.

(** *** When the entry points return a report *)

Lemma index_ok_lt {A : Type} (l : list A) (i : nat) (v : A) :
  index l (Z.of_nat i) = Ok v -> (i < length l)%nat.
Proof.
  unfold index.
  destruct (Z.ltb_spec (Z.of_nat i) 0); [lia|].
  destruct (Z.ltb_spec (Z.of_nat i) 0); [lia|].
  destruct (Z.leb_spec (Z.of_nat (length l)) (Z.of_nat i)); simpl;
    [discriminate|lia].
Qed.

Lemma index_out_of_range {A : Type} (l : list A) (i : nat) :
  (length l <= i)%nat -> index l (Z.of_nat i) = Raise IndexError.
Proof.
  intros H. destruct (index l (Z.of_nat i)) as [v|e] eqn:E.
  - apply index_ok_lt in E. lia.
  - unfold index in E.
    repeat match type of E with
           | (if ?b then _ else _) = _ => destruct b
           | match ?o with _ => _ end = _ => destruct o
           end; congruence.
Qed.

Lemma align_basic_empty (T : Transform) (p : nat) :
  spectral_centroids T = [] -> align_basic T p = Raise IndexError.
Proof. intros H. unfold align_basic. rewrite H. apply index_empty. Qed.

Lemma align_basic_ok (T : Transform) (p : nat) :
  spectral_centroids T <> [] -> exists c, align_basic T p = Ok c.
Proof.
  intros H. unfold align_basic.
  destruct (frame_index_clamp p _ H) as [-> Hlt].
  rewrite (index_in_range _ _ 0 Hlt). eauto.
Qed.

Lemma align_live_cases (T : Transform) (p : nat) :
  (spectral_centroids T <> []
   /\ (Nat.min p (length (spectral_centroids T) - 1)
       < length (spectral_rolloff T))%nat
   /\ exists f, align_live T p = Ok f)
  \/ ((spectral_centroids T = []
       \/ (length (spectral_rolloff T)
           <= Nat.min p (length (spectral_centroids T) - 1))%nat)
      /\ align_live T p = Raise IndexError).
Proof.
  unfold align_live.
  destruct (spectral_centroids T) as [|c0 cs] eqn:Ec.
  - right. split; [now left|]. now rewrite index_empty.
  - assert (Hne : c0 :: cs <> []) by discriminate.
    destruct (frame_index_clamp p _ Hne) as [-> Hlt].
    rewrite (index_in_range _ _ 0 Hlt). cbn [bind].
    destruct (Nat.lt_ge_cases (Nat.min p (length (c0 :: cs) - 1))
                (length (spectral_rolloff T))) as [Hr|Hr].
    + left. split; [exact Hne|]. split; [exact Hr|].
      rewrite (index_in_range _ _ 0 Hr). cbn [bind].
      rewrite zcr_at_spec. cbn [bind]. eauto.
    + right. split; [now right|].
      now rewrite (index_out_of_range _ _ Hr).
Qed.

Lemma max_decibels_empty (N : Numerics) : max_decibels N [] = Raise ValueError.
Proof. reflexivity. Qed.

Lemma freq_spectrum_live_total (N : Numerics) (sr : positive) (mag : list Q) :
  exists pts, freq_spectrum_live N sr mag = Ok pts.
Proof.
  destruct mag as [|v mag]; [exists []; reflexivity|].
  destruct (np_max_nonempty (v :: mag)) as [m Hm]; [discriminate|].
  rewrite (freq_spectrum_live_ok N sr _ m Hm). eauto.
Qed.

Lemma freq_spectrum_basic_cases (N : Numerics) (sr : positive)
    (mag : list Q) :
  ((100 <= length mag)%nat /\ exists pts, freq_spectrum_basic N sr mag = Ok pts)
  \/ ((length mag < 100)%nat
      /\ freq_spectrum_basic N sr mag = Raise ValueError).
Proof.
  destruct (Nat.lt_ge_cases (length mag) 100) as [Hs|Hl].
  - right. split; [exact Hs|now apply freq_spectrum_basic_short].
  - left. split; [exact Hl|].
    destruct (np_max_nonempty mag) as [m Hm].
    { destruct mag; [simpl in Hl; lia|discriminate]. }
    rewrite (freq_spectrum_basic_ok N sr _ m Hm Hl). eauto.
Qed.

Lemma detected_peaks_eq (y energy : list Q) :
  normalize (frame_energy y) = Ok energy ->
  detected_peaks y = find_peaks energy 0.2 5.
Proof. intros H. unfold detected_peaks. now rewrite H. Qed.

Lemma basic_events_cases (N : Numerics) (y energy : list Q) (sr : positive)
    (T : Transform) :
  normalize (frame_energy y) = Ok energy ->
  ((detected_peaks y = [] \/ spectral_centroids T <> [])
   /\ exists evs,
        basic_events N sr energy T (find_peaks energy 0.2 5) = Ok evs)
  \/ (detected_peaks y <> [] /\ spectral_centroids T = []
      /\ basic_events N sr energy T (find_peaks energy 0.2 5)
         = Raise IndexError).
Proof.
  intros Hn. rewrite (detected_peaks_eq y energy Hn).
  destruct (spectral_centroids T) as [|c0 cs] eqn:Ec.
  - destruct (find_peaks energy 0.2 5) as [|p ps] eqn:Ep.
    + left. split; [now left|]. exists []. reflexivity.
    + right. split; [discriminate|]. split; [reflexivity|].
      unfold basic_events. cbn [mapM]. unfold basic_event at 1.
      rewrite (align_basic_empty T p Ec). reflexivity.
  - left. split; [right; discriminate|].
    apply mapM_ok. intros p Hp.
    destruct (peak_of_normalized y energy p Hn Hp) as (_ & _ & Hidx & _).
    destruct (align_basic_ok T p) as [c Hc]; [rewrite Ec; discriminate|].
    unfold basic_event. rewrite Hc. cbn [bind]. rewrite Hidx. cbn [bind].
    eauto.
Qed.

Lemma analyze_audio_events_raise (N : Numerics) (y : list Q) (sr : positive)
    (T : Transform) (energy : list Q) (db : decibel) (e : exn) :
  normalize (frame_energy y) = Ok energy ->
  max_decibels N y = Ok db ->
  basic_events N sr energy T (find_peaks energy 0.2 5) = Raise e ->
  analyze_audio N y sr T = Raise e.
Proof.
  intros E1 E2 E3. unfold analyze_audio.
  rewrite E1. cbn [bind]. rewrite E2. cbn [bind]. now rewrite E3.
Qed.

Lemma analyze_audio_cases (N : Numerics) (y : list Q) (sr : positive)
    (T : Transform) :
  (y = [] /\ analyze_audio N y sr T = Raise ValueError)
  \/ (y <> [] /\ detected_peaks y <> [] /\ spectral_centroids T = []
      /\ analyze_audio N y sr T = Raise IndexError)
  \/ (y <> [] /\ (detected_peaks y = [] \/ spectral_centroids T <> [])
      /\ (length (magnitude T) < 100)%nat
      /\ analyze_audio N y sr T = Raise ValueError)
  \/ (y <> [] /\ (detected_peaks y = [] \/ spectral_centroids T <> [])
      /\ (100 <= length (magnitude T))%nat
      /\ exists r, analyze_audio N y sr T = Ok r).
Proof.
  destruct y as [|s y']; [left; split; reflexivity|right].
  set (y := s :: y'). assert (Hy : y <> []) by discriminate.
  destruct (proj2 (normalize_ok_iff y) Hy) as [energy Hn].
  destruct (max_decibels_nonempty N y Hy) as [db Hdb].
  destruct (basic_events_cases N y energy sr T Hn)
    as [[Hcond [evs Hev]]|(Hp & Hc & Hev)].
  - right.
    destruct (freq_spectrum_basic_cases N sr (magnitude T))
      as [[Hl [pts Hs]]|[Hs Hraise]].
    + right. split; [exact Hy|]. split; [exact Hcond|]. split; [exact Hl|].
      destruct (analyze_audio_run N y sr T _ _ _ _ Hn Hdb Hev Hs) as (r & Hr & _).
      eauto.
    + left. split; [exact Hy|]. split; [exact Hcond|]. split; [exact Hs|].
      exact (analyze_audio_spectrum_raises N y sr T _ _ _ _ Hn Hdb Hev Hraise).
  - left. split; [exact Hy|]. split; [exact Hp|]. split; [exact Hc|].
    exact (analyze_audio_events_raise N y sr T _ _ _ Hn Hdb Hev).
Qed.

(** X5.  [analyze_audio] returns a report exactly when the waveform is
    non-empty, the transform has at least 100 bins, and the centroid array is
    non-empty or no peak is detected.  It fails with [IndexError] exactly
    when a peak is detected on a non-empty waveform and the centroid array is
    empty, and with [ValueError] in the remaining cases: an empty waveform,
    or fewer than 100 bins. *)
Theorem analyze_audio_outcome (N : Numerics) (y : list Q) (sr : positive)
    (T : Transform) :
  ((exists r, analyze_audio N y sr T = Ok r)
   <-> y <> [] /\ (100 <= length (magnitude T))%nat
       /\ (detected_peaks y = [] \/ spectral_centroids T <> []))
  /\ (analyze_audio N y sr T = Raise IndexError
      <-> y <> [] /\ detected_peaks y <> [] /\ spectral_centroids T = [])
  /\ (analyze_audio N y sr T = Raise ValueError
      <-> y = []
          \/ ((length (magnitude T) < 100)%nat
              /\ (detected_peaks y = [] \/ spectral_centroids T <> []))).
Proof.
  destruct (analyze_audio_cases N y sr T)
    as [[Hy H]|[(Hy & Hp & Hc & H)|[(Hy & Hcond & Hs & H)|(Hy & Hcond & Hl & [r H])]]];
    rewrite H; (split; [|split]); split;
    try (intros [? ?]; discriminate); try discriminate; try tauto;
    try (intros _; repeat split; auto; fail);
    try (intros (? & ? & ?); exfalso; tauto || lia);
    try (intros [?|[? ?]]; exfalso; tauto || lia);
    try (intros (? & ? & [?|?]); exfalso; tauto || lia).
  intros _. eauto.
Qed.

Lemma live_event_cases (N : Numerics) (y energy : list Q) (sr : positive)
    (T : Transform) (p : nat) :
  normalize (frame_energy y) = Ok energy ->
  In p (find_peaks energy 0.2 5) ->
  (spectral_centroids T <> []
   /\ (Nat.min p (length (spectral_centroids T) - 1)
       < length (spectral_rolloff T))%nat
   /\ exists ev, live_event N sr energy T p = Ok ev)
  \/ ((spectral_centroids T = []
       \/ (length (spectral_rolloff T)
           <= Nat.min p (length (spectral_centroids T) - 1))%nat)
      /\ live_event N sr energy T p = Raise IndexError).
Proof.
  intros Hn Hp.
  destruct (peak_of_normalized y energy p Hn Hp) as (_ & _ & Hidx & _).
  unfold live_event.
  destruct (align_live_cases T p) as [(Hc & Hr & [f Hf])|[Hbad Hf]];
    rewrite Hf; cbn [bind].
  - left. split; [exact Hc|]. split; [exact Hr|].
    destruct f as [[c ro] z]. destruct (classify_extended c ro z).
    rewrite Hidx. cbn [bind]. eauto.
  - right. split; [exact Hbad|reflexivity].
Qed.

Lemma live_events_cases (N : Numerics) (y energy : list Q) (sr : positive)
    (T : Transform) :
  normalize (frame_energy y) = Ok energy ->
  ((forall p, In p (detected_peaks y) ->
      spectral_centroids T <> []
      /\ (Nat.min p (length (spectral_centroids T) - 1)
          < length (spectral_rolloff T))%nat)
   /\ exists evs,
        live_events N sr energy T (find_peaks energy 0.2 5) = Ok evs)
  \/ ((exists p, In p (detected_peaks y)
         /\ (spectral_centroids T = []
             \/ (length (spectral_rolloff T)
                 <= Nat.min p (length (spectral_centroids T) - 1))%nat))
      /\ live_events N sr energy T (find_peaks energy 0.2 5)
         = Raise IndexError).
Proof.
  intros Hn. rewrite (detected_peaks_eq y energy Hn).
  destruct (live_events N sr energy T (find_peaks energy 0.2 5))
    as [evs|e] eqn:E.
  - left. split; [|eauto]. intros p Hp.
    destruct (mapM_all_ok _ _ _ E p Hp) as [ev Hev].
    destruct (live_event_cases N y energy sr T p Hn Hp)
      as [(Hc & Hr & _)|[_ Hraise]]; [now split|congruence].
  - right. destruct (mapM_raise _ _ _ E) as (p & Hp & Hraise).
    destruct (live_event_cases N y energy sr T p Hn Hp)
      as [(_ & _ & [ev Hev])|[Hbad Hr]]; [congruence|].
    split; [exists p; now split|]. congruence.
Qed.

Lemma generate_live_analysis_events_raise (N : Numerics) (y : list Q)
    (sr : positive) (T : Transform) (energy : list Q) (e : exn) :
  normalize (frame_energy y) = Ok energy ->
  live_events N sr energy T (find_peaks energy 0.2 5) = Raise e ->
  generate_live_analysis N y sr T = Raise e.
Proof.
  intros E1 E3. unfold generate_live_analysis.
  rewrite E1. cbn [bind]. now rewrite E3.
Qed.

Lemma generate_live_analysis_cases (N : Numerics) (y : list Q)
    (sr : positive) (T : Transform) :
  (y = [] /\ generate_live_analysis N y sr T = Raise ValueError)
  \/ (y <> []
      /\ (exists p, In p (detected_peaks y)
            /\ (spectral_centroids T = []
                \/ (length (spectral_rolloff T)
                    <= Nat.min p (length (spectral_centroids T) - 1))%nat))
      /\ generate_live_analysis N y sr T = Raise IndexError)
  \/ (y <> []
      /\ (forall p, In p (detected_peaks y) ->
            spectral_centroids T <> []
            /\ (Nat.min p (length (spectral_centroids T) - 1)
                < length (spectral_rolloff T))%nat)
      /\ exists r, generate_live_analysis N y sr T = Ok r).
Proof.
  destruct y as [|s y']; [left; split; reflexivity|right].
  set (y := s :: y'). assert (Hy : y <> []) by discriminate.
  destruct (proj2 (normalize_ok_iff y) Hy) as [energy Hn].
  destruct (max_decibels_nonempty N y Hy) as [db Hdb].
  destruct (freq_spectrum_live_total N sr (magnitude T)) as [pts Hs].
  destruct (live_events_cases N y energy sr T Hn)
    as [[Hall [evs Hev]]|[Hbad Hev]].
  - right. split; [exact Hy|]. split; [exact Hall|].
    destruct (generate_live_analysis_run N y sr T _ _ _ _ Hn Hev Hdb Hs)
      as (r & Hr & _).
    eauto.
  - left. split; [exact Hy|]. split; [exact Hbad|].
    exact (generate_live_analysis_events_raise N y sr T _ _ Hn Hev).
Qed.

(** X6.  [generate_live_analysis] returns a report exactly when the waveform
    is non-empty and, for every detected peak, the centroid array is
    non-empty and the clamped index [min(peak, len(centroids) - 1)] lies
    within the rolloff array.  It fails with [IndexError] exactly when some
    detected peak violates this, and with [ValueError] exactly on the empty
    waveform; the length of the zero-crossing array and the number of
    transform bins never make it fail. *)
Theorem generate_live_analysis_outcome (N : Numerics) (y : list Q)
    (sr : positive) (T : Transform) :
  ((exists r, generate_live_analysis N y sr T = Ok r)
   <-> y <> []
       /\ forall p, In p (detected_peaks y) ->
            spectral_centroids T <> []
            /\ (Nat.min p (length (spectral_centroids T) - 1)
                < length (spectral_rolloff T))%nat)
  /\ (generate_live_analysis N y sr T = Raise IndexError
      <-> y <> []
          /\ exists p, In p (detected_peaks y)
               /\ (spectral_centroids T = []
                   \/ (length (spectral_rolloff T)
                       <= Nat.min p (length (spectral_centroids T) - 1))%nat))
  /\ (generate_live_analysis N y sr T = Raise ValueError <-> y = []).
Proof.
  destruct (generate_live_analysis_cases N y sr T)
    as [[Hy H]|[(Hy & Hbad & H)|(Hy & Hall & [r H])]]; rewrite H.
  - split; [|split]; split; try discriminate; auto.
    + intros [r Hr]. discriminate.
    + intros [Hne _]. contradiction.
    + intros [Hne _]. contradiction.
  - split; [|split]; split; try discriminate; auto.
    + intros [r Hr]. discriminate.
    + intros [_ Hall]. destruct Hbad as (p & Hp & Hb).
      destruct (Hall p Hp) as [Hc Hr]. exfalso. destruct Hb; [tauto|lia].
    + intros ->. contradiction.
  - split; [|split]; split; try discriminate; eauto.
    + intros [_ (p & Hp & Hb)]. destruct (Hall p Hp) as [Hc Hr].
      exfalso. destruct Hb; [tauto|lia].
    + intros ->. contradiction.
Qed.

(** *** What truncation drops *)

Lemma sorted_prefix_dominates {A : Type} (key : A -> Q) (n : nat)
    (l : list A) :
  StronglySorted (fun a b => key b <= key a) l ->
  forall a b, In a (firstn n l) -> In b (skipn n l) -> key b <= key a.
Proof.
  intros Hs. revert n. induction Hs as [|x l Hs IH Hx]; intros n a b Ha Hb.
  - destruct n; destruct Ha.
  - destruct n as [|n]; [destruct Ha|]. simpl in Ha, Hb.
    destruct Ha as [<-|Ha].
    + rewrite List.Forall_forall in Hx. apply Hx.
      rewrite <- (firstn_skipn n l). apply in_or_app. now right.
    + eapply IH; eauto.
Qed.

Lemma ranked_report {A : Type} (key : A -> Q) (n : nat) (evs : list A) :
  let kept := Py.prefix (sort_desc key evs) n in
  let dropped := skipn n (sort_desc key evs) in
  Permutation (kept ++ dropped) evs
  /\ length kept = Nat.min n (length evs)
  /\ (forall a b, In a kept -> In b dropped -> key b <= key a).
Proof.
  intros kept dropped. subst kept dropped. unfold Py.prefix.
  split; [|split].
  - rewrite firstn_skipn. apply sort_desc_perm.
  - rewrite length_firstn.
    now rewrite (Permutation_length (sort_desc_perm key evs)).
  - apply sorted_prefix_dominates, sort_desc_sorted.
Qed.

(** X7.  In every report, [detectedSounds] counts all the events built (one
    per detected peak), of which the report lists [min(10, detectedSounds)]
    in the Basic variant and [min(15, detectedSounds)] in the Extended one;
    the listed events together with the omitted ones are the events built,
    and no omitted event has a larger amplitude than a listed one. *)
Theorem truncation_keeps_loudest (N : Numerics) (y : list Q) (sr : positive)
    (T : Transform) :
  (forall r, analyze_audio N y sr T = Ok r ->
     exists energy evs dropped,
       normalize (frame_energy y) = Ok energy
       /\ basic_events N sr energy T (find_peaks energy 0.2 5) = Ok evs
       /\ detectedSounds r = length evs
       /\ length (soundEvents r) = Nat.min 10 (detectedSounds r)
       /\ Permutation (soundEvents r ++ dropped) evs
       /\ (forall a b, In a (soundEvents r) -> In b dropped ->
             amplitude b <= amplitude a))
  /\ (forall r, generate_live_analysis N y sr T = Ok r ->
     exists energy evs dropped,
       normalize (frame_energy y) = Ok energy
       /\ live_events N sr energy T (find_peaks energy 0.2 5) = Ok evs
       /\ detectedSounds r = length evs
       /\ length (soundEvents r) = Nat.min 15 (detectedSounds r)
       /\ Permutation (soundEvents r ++ dropped) evs
       /\ (forall a b, In a (soundEvents r) -> In b dropped ->
             live_amplitude b <= live_amplitude a)).
Proof.
  split; intros r Hr.
  - apply analyze_audio_inv in Hr
      as (energy & db & evs & spec & E1 & _ & E3 & _ & Hn & _ & Hev & _).
    destruct (ranked_report amplitude 10 evs) as (Hperm & Hlen & Hdom).
    exists energy, evs, (skipn 10 (sort_desc amplitude evs)).
    rewrite Hev, Hn, <- (mapM_length _ _ _ E3).
    repeat split; auto.
  - apply generate_live_analysis_inv in Hr
      as (energy & db & evs & spec & E1 & E3 & _ & _ & Hn & _ & Hev & _).
    destruct (ranked_report live_amplitude 15 evs) as (Hperm & Hlen & Hdom).
    exists energy, evs, (skipn 15 (sort_desc live_amplitude evs)).
    rewrite Hev, Hn, <- (mapM_length _ _ _ E3).
    repeat split; auto.
Qed.

End OutcomeFacts.

Module PayloadFacts.
Import Py PyFacts FrameEnergy FrameEnergyFacts Scipy PeakSpec ScipyFacts.
Import Classifier Report ReportFacts EnvelopeFacts EventFacts Visualization.
Local Open Scope Q_scope.
Local Arguments Nat.div _ _ : simpl never.

(** *** The frequency axis *)

Lemma nth_linspace (stop : Q) (n i : nat) :
  (i < n)%nat ->
  nth i (linspace stop n) 0
  = inject_Z (Z.of_nat i) * (stop / inject_Z (Z.of_nat (n - 1))).
Proof.
  intros Hi. unfold linspace.
  rewrite (nth_map_lt _ (seq 0 n) i 0%nat 0) by now rewrite length_seq.
  now rewrite seq_nth.
Qed.

Lemma below_half (a b s : Q) :
  0 < b -> 0 < s -> 2 * a < b -> a * (s / b) < s / 2.
Proof.
  intros Hb Hs Hab.
  assert (P : 0 < s * (b - 2 * a)) by (apply Qmult_lt_0_compat; lra).
  assert (E : s / 2 - a * (s / b) == (s * (b - 2 * a)) / (2 * b))
    by (field; lra).
  apply Qlt_minus_iff. unfold Qminus in E. rewrite E.
  apply Qlt_shift_div_l; lra.
Qed.

Lemma half_lt (n i : nat) : (i < n / 2)%nat -> (2 * i + 1 < n)%nat.
Proof.
  intros H.
  pose proof (Nat.div_mod_eq n 2) as E.
  pose proof (Nat.mod_upper_bound n 2 ltac:(lia)) as B.
  lia.
Qed.

Lemma linspace_positive_half (sr : positive) (n i : nat) :
  (i < n / 2)%nat ->
  0 <= nth i (linspace (inject_Z (Z.pos sr)) n) 0
  /\ nth i (linspace (inject_Z (Z.pos sr)) n) 0 < inject_Z (Z.pos sr) / 2.
Proof.
  intros Hi. pose proof (half_lt n i Hi) as Hn.
  rewrite nth_linspace by lia.
  assert (Hs : 0 < inject_Z (Z.pos sr)) by (rewrite <- (Zlt_Qlt 0); lia).
  assert (Hb : 0 < inject_Z (Z.of_nat (n - 1))) by (rewrite <- (Zlt_Qlt 0); lia).
  assert (Ha : 0 <= inject_Z (Z.of_nat i)) by (rewrite <- (Zle_Qle 0); lia).
  split.
  - apply Qmult_le_0_compat; [exact Ha|].
    apply Qle_shift_div_l; [exact Hb|lra].
  - apply below_half; [exact Hb|exact Hs|].
    change 2 with (inject_Z 2). rewrite <- inject_Z_mult, <- Zlt_Qlt. lia.
Qed.

Lemma nth_prefix {A : Type} (l : list A) (n i : nat) (d : A) :
  (i < n)%nat -> nth i (Py.prefix l n) d = nth i l d.
Proof.
  intros H. unfold Py.prefix. rewrite nth_firstn.
  destruct (Nat.ltb_spec i n); [reflexivity|lia].
Qed.

(** X8.  Both spectrum summaries sample the payload [fft_data]: for a
    transform with non-negative magnitudes and global maximum [m], every
    entry is the rounding of one point [i] of the positive half, with
    frequency [fft_x[i]] in [[0, sr / 2)] and magnitude [fft_y[i]] between 0
    and [m], so that the normalized magnitude passed to [round] lies in
    [[0, 1]]. *)
Theorem spectrum_within_half (N : Numerics) (sr : positive) (mag : list Q)
    (m : Q) (pts : list SpectrumPoint) :
  np_max mag = Ok m ->
  Forall (fun v => 0 <= v) mag ->
  freq_spectrum_basic N sr mag = Ok pts
  \/ freq_spectrum_live N sr mag = Ok pts ->
  length (fft_x (fft_data sr mag)) = (length mag / 2)%nat
  /\ length (fft_y (fft_data sr mag)) = (length mag / 2)%nat
  /\ Forall (fun pt =>
       exists i, (i < length mag / 2)%nat
         /\ point_frequency pt
            = round N (nth i (fft_x (fft_data sr mag)) 0) 1
         /\ point_magnitude pt
            = (if Qltb 0 m
               then round N (nth i (fft_y (fft_data sr mag)) 0 / m) 3
               else 0)
         /\ 0 <= nth i (fft_x (fft_data sr mag)) 0 < inject_Z (Z.pos sr) / 2
         /\ 0 <= nth i (fft_y (fft_data sr mag)) 0 <= m
         /\ (0 < m -> 0 <= nth i (fft_y (fft_data sr mag)) 0 / m <= 1)) pts.
Proof.
  intros Hm Hpos Hpts.
  assert (Hhalf : (length mag / 2 <= length mag)%nat)
    by (apply Nat.Div0.div_le_upper_bound; lia).
  unfold fft_data. cbn [fft_x fft_y]. rewrite length_linspace.
  unfold Py.prefix at 1 2. rewrite !length_firstn, length_linspace.
  split; [lia|]. split; [lia|].
  assert (Hidx : exists idxs,
            pts = map (sampled_point N sr mag m) idxs
            /\ forall i, In i idxs -> (i < length mag / 2)%nat).
  { destruct Hpts as [Hb|Hl].
    - destruct (Nat.lt_ge_cases (length mag) 100) as [Hs|Hge].
      + rewrite freq_spectrum_basic_short in Hb by exact Hs. discriminate.
      + rewrite (freq_spectrum_basic_ok N sr mag m Hm Hge) in Hb.
        injection Hb as <-. eexists. split; [reflexivity|].
        intros i Hi. apply In_range_items in Hi; [exact Hi|].
        apply Nat.div_str_pos. lia.
    - rewrite (freq_spectrum_live_ok N sr mag m Hm) in Hl.
      injection Hl as <-. eexists. split; [reflexivity|].
      intros i Hi. apply In_range_items in Hi; [exact Hi|lia]. }
  destruct Hidx as (idxs & -> & Hin).
  destruct (np_max_spec _ _ Hm) as [_ Hle].
  rewrite List.Forall_forall in Hpos, Hle.
  apply List.Forall_forall. intros pt Hpt.
  apply in_map_iff in Hpt as (i & <- & Hi). specialize (Hin i Hi).
  exists i. rewrite !nth_prefix by exact Hin.
  assert (Hmi : In (nth i mag 0) mag) by (apply nth_In; lia).
  pose proof (Hpos _ Hmi) as H0. pose proof (Hle _ Hmi) as H1. simpl in H0, H1.
  split; [exact Hin|]. split; [reflexivity|]. split; [reflexivity|].
  split; [now apply linspace_positive_half|]. split; [now split|].
  intros Hmpos. split.
  - apply Qle_shift_div_l; [exact Hmpos|lra].
  - apply Qle_shift_div_r; [exact Hmpos|lra].
Qed.

Lemma spectrum_within_half_witness :
  np_max [4; 1; 2; 1] = Ok 4
  /\ exists pts,
       freq_spectrum_live Samples.sample_numerics 8 [4; 1; 2; 1] = Ok pts
       /\ Forall (fun pt =>
            exists i, (i < length [4; 1; 2; 1] / 2)%nat
              /\ point_frequency pt
                 = round Samples.sample_numerics
                     (nth i (fft_x (fft_data 8 [4; 1; 2; 1])) 0) 1
              /\ point_magnitude pt
                 = (if Qltb 0 4
                    then round Samples.sample_numerics
                           (nth i (fft_y (fft_data 8 [4; 1; 2; 1])) 0 / 4) 3
                    else 0)
              /\ 0 <= nth i (fft_x (fft_data 8 [4; 1; 2; 1])) 0
                 < inject_Z 8 / 2
              /\ 0 <= nth i (fft_y (fft_data 8 [4; 1; 2; 1])) 0 <= 4
              /\ (0 < 4 ->
                  0 <= nth i (fft_y (fft_data 8 [4; 1; 2; 1])) 0 / 4 <= 1))
            pts.
Proof.
  split; [reflexivity|].
  eexists. split; [vm_compute; reflexivity|].
  apply (spectrum_within_half Samples.sample_numerics 8 [4; 1; 2; 1] 4).
  - reflexivity.
  - repeat constructor; discriminate.
  - right. vm_compute. reflexivity.
Defined.

(** *** The energy payload *)

Lemma mapM_map {A B : Type} (f : A -> result B) (g : A -> B) (l : list A) :
  (forall a, In a l -> f a = Ok (g a)) -> mapM f l = Ok (map g l).
Proof.
  induction l as [|a l IH]; intros H; simpl; [reflexivity|].
  rewrite (H a (or_introl eq_refl)). cbn [bind].
  rewrite IH by (intros a' Ha'; apply H; now right). reflexivity.
Qed.

Lemma range_items_step_one (n : nat) : range_items n 1 = seq 0 n.
Proof.
  unfold range_items.
  assert (E : range_len n 1 = n).
  { unfold range_len. destruct (Nat.eqb_spec n 0) as [->|Hn]; [reflexivity|].
    rewrite Nat.div_1_r. lia. }
  rewrite E. rewrite <- (map_id (seq 0 n)) at 2.
  apply map_ext. intros k. lia.
Qed.

(** X9.  On a normalized envelope, building the ["energy"] payload of the
    Extended report never fails: [peak_values] holds, peak by peak, the
    envelope value at the peak, each between 0.2 and 1, and [frames] is the
    list [0, 1, ..., len(energy) - 1]. *)
Theorem energy_payload (y energy : list Q) :
  normalize (frame_energy y) = Ok energy ->
  exists d,
    energy_data energy (find_peaks energy 0.2 5) = Ok d
    /\ data_energy d = energy
    /\ data_peaks d = find_peaks energy 0.2 5
    /\ peak_values d = map (fun p => nth p energy 0) (find_peaks energy 0.2 5)
    /\ Forall (fun v => 0.2 <= v <= 1) (peak_values d)
    /\ frames d = seq 0 (length energy).
Proof.
  intros Hn. unfold energy_data.
  assert (Hval : (if (0 <? length (find_peaks energy 0.2 5))%nat
                  then take_at energy (find_peaks energy 0.2 5) else Ok [])
                 = Ok (map (fun p => nth p energy 0) (find_peaks energy 0.2 5))).
  { destruct (find_peaks energy 0.2 5) as [|p ps] eqn:E; [reflexivity|].
    cbn [length Nat.ltb Nat.leb]. unfold take_at. apply mapM_map.
    intros a Ha. rewrite <- E in Ha.
    now destruct (peak_of_normalized y energy a Hn Ha) as (_ & _ & Hidx & _). }
  rewrite Hval. cbn [bind]. eexists. split; [reflexivity|]. cbn.
  split; [reflexivity|]. split; [reflexivity|]. split; [reflexivity|].
  split; [|apply range_items_step_one].
  apply List.Forall_forall. intros v Hv.
  apply in_map_iff in Hv as (p & <- & Hp).
  now destruct (peak_of_normalized y energy p Hn Hp) as (_ & _ & _ & Hr).
Qed.

Lemma energy_payload_witness :
  exists energy d,
    normalize (frame_energy Samples.click_waveform) = Ok energy
    /\ energy_data energy (find_peaks energy 0.2 5) = Ok d
    /\ data_peaks d = [1%nat]
    /\ Forall (fun v => 0.2 <= v <= 1) (peak_values d)
    /\ frames d = [0; 1; 2; 3]%nat.
Proof.
  eexists.
  assert (H : normalize (frame_energy Samples.click_waveform)
              = Ok [0 / 1; 1 / 1; 1 / 1; 0 / 1]) by (vm_compute; reflexivity).
  destruct (energy_payload Samples.click_waveform _ H)
    as (d & Hd & _ & Hp & _ & Hr & Hf).
  exists d. split; [exact H|]. split; [exact Hd|].
  split; [rewrite Hp; vm_compute; reflexivity|].
  split; [exact Hr|exact Hf].
Defined.

End PayloadFacts.

Module StreamingFacts.
Import Py PyFacts Streaming PayloadFacts.
Local Open Scope Q_scope.
Local Arguments Nat.div _ _ : simpl never.

(** *** Sums *)

Lemma fold_left_Qplus_right (l : list Q) (a : Q) :
  fold_left Qplus l a == a + fold_right Qplus 0 l.
Proof.
  revert a. induction l as [|x l IH]; intros a; simpl.
  - ring.
  - rewrite IH. ring.
Qed.

Lemma np_sum_right (l : list Q) : np_sum l == fold_right Qplus 0 l.
Proof. unfold np_sum. rewrite fold_left_Qplus_right. ring. Qed.

Lemma sum_right_nonneg (l : list Q) :
  Forall (fun v => 0 <= v) l -> 0 <= fold_right Qplus 0 l.
Proof. induction 1 as [|x l Hx _ IH]; simpl; lra. Qed.

Lemma sum_right_zero (l : list Q) :
  Forall (fun v => v == 0) l -> fold_right Qplus 0 l == 0.
Proof. induction 1 as [|x l Hx _ IH]; simpl; lra. Qed.

Lemma sum_right_positive (l : list Q) :
  Forall (fun v => 0 <= v) l -> Exists (fun v => 0 < v) l ->
  0 < fold_right Qplus 0 l.
Proof.
  intros Hpos Hex. induction Hpos as [|x l Hx Hl IH]; simpl.
  - inversion Hex.
  - pose proof (sum_right_nonneg l Hl).
    inversion Hex; subst; [lra|]. specialize (IH ltac:(assumption)). lra.
Qed.

Lemma weighted_nonneg (F M : list Q) :
  Forall (fun f => 0 <= f) F -> Forall (fun v => 0 <= v) M ->
  0 <= fold_right Qplus 0 (map (fun p => fst p * snd p) (combine F M)).
Proof.
  intros HF. revert M. induction HF as [|f F Hf _ IH]; intros M HM; simpl.
  - lra.
  - destruct HM as [|v M Hv HM]; simpl; [lra|].
    specialize (IH M HM). pose proof (Qmult_le_0_compat _ _ Hf Hv). lra.
Qed.

Lemma weighted_zero (F M : list Q) :
  Forall (fun v => v == 0) M ->
  fold_right Qplus 0 (map (fun p => fst p * snd p) (combine F M)) == 0.
Proof.
  intros HM. revert F. induction HM as [|v M Hv _ IH]; intros F.
  - destruct F; reflexivity.
  - destruct F as [|f F]; simpl; [reflexivity|]. rewrite IH, Hv. ring.
Qed.

Lemma weighted_le (B : Q) (F M : list Q) :
  Forall (fun f => f < B) F -> Forall (fun v => 0 <= v) M ->
  length F = length M ->
  fold_right Qplus 0 (map (fun p => fst p * snd p) (combine F M))
  <= B * fold_right Qplus 0 M.
Proof.
  intros HF. revert M. induction HF as [|f F Hf _ IH]; intros M HM Hlen.
  - destruct M; [simpl; lra|discriminate].
  - destruct HM as [|v M Hv HM]; [discriminate|]. simpl.
    specialize (IH M HM ltac:(simpl in Hlen; lia)).
    assert (f * v <= B * v) by (apply Qmult_le_compat_r; lra).
    lra.
Qed.

Lemma weighted_lt (B : Q) (F M : list Q) :
  Forall (fun f => f < B) F -> Forall (fun v => 0 <= v) M ->
  length F = length M ->
  0 < fold_right Qplus 0 M ->
  fold_right Qplus 0 (map (fun p => fst p * snd p) (combine F M))
  < B * fold_right Qplus 0 M.
Proof.
  intros HF. revert M. induction HF as [|f F Hf HF' IH]; intros M HM Hlen Hpos.
  - destruct M; [simpl in Hpos; lra|discriminate].
  - destruct HM as [|v M Hv HM]; [discriminate|]. simpl in *.
    assert (Hl : length F = length M) by lia.
    pose proof (weighted_le B F M HF' HM Hl) as Hle.
    destruct (Qlt_le_dec 0 v) as [Hvpos|Hvz].
    + assert (f * v < B * v) by (apply Qmult_lt_compat_r; lra). lra.
    + assert (Hv0 : v == 0) by lra.
      specialize (IH M HM Hl ltac:(lra)).
      rewrite Hv0. lra.
Qed.

(** *** The frequency bins *)

Lemma firstn_seq_le (s n k : nat) :
  (k <= n)%nat -> firstn k (seq s n) = seq s k.
Proof.
  intros H. replace n with (k + (n - k))%nat by lia.
  rewrite seq_app, firstn_app, length_seq, Nat.sub_diag.
  rewrite firstn_all2 by (rewrite length_seq; lia).
  simpl. apply app_nil_r.
Qed.

Lemma halves_add (n : nat) :
  (1 <= n)%nat ->
  ((n - 1) / 2 + 1 + n / 2 = n)%nat /\ (n / 2 <= (n - 1) / 2 + 1)%nat.
Proof.
  intros H.
  pose proof (Nat.div_mod_eq n 2). pose proof (Nat.div_mod_eq (n - 1) 2).
  pose proof (Nat.mod_upper_bound n 2 ltac:(lia)).
  pose proof (Nat.mod_upper_bound (n - 1) 2 ltac:(lia)).
  lia.
Qed.

Lemma length_fftfreq (n : nat) (d : Q) :
  (1 <= n)%nat -> length (fftfreq n d) = n.
Proof.
  intros H. unfold fftfreq.
  rewrite length_map, length_app, !length_map, !length_seq.
  apply (proj1 (halves_add n H)).
Qed.

Lemma fftfreq_half (n : nat) (d : Q) :
  (1 <= n)%nat ->
  Py.prefix (fftfreq n d) (n / 2)
  = map (fun k => inject_Z (Z.of_nat k) * (1 / (inject_Z (Z.of_nat n) * d)))
        (seq 0 (n / 2)).
Proof.
  intros H. unfold Py.prefix, fftfreq.
  destruct (halves_add n H) as [Hn Hle].
  rewrite firstn_map, firstn_app, length_map, length_seq.
  replace (n / 2 - ((n - 1) / 2 + 1))%nat with 0%nat by lia.
  rewrite firstn_O, app_nil_r, firstn_map, firstn_seq_le by lia.
  now rewrite map_map.
Qed.

Lemma bin_below_nyquist (sr : positive) (n k : nat) :
  (k < n / 2)%nat ->
  let f := inject_Z (Z.of_nat k)
           * (1 / (inject_Z (Z.of_nat n) * (1 / inject_Z (Z.pos sr)))) in
  0 <= f /\ f < inject_Z (Z.pos sr) / 2.
Proof.
  intros Hk f. pose proof (half_lt n k Hk) as Hn.
  assert (Hs : 0 < inject_Z (Z.pos sr)) by (rewrite <- (Zlt_Qlt 0); lia).
  assert (Hb : 0 < inject_Z (Z.of_nat n)) by (rewrite <- (Zlt_Qlt 0); lia).
  assert (Ha : 0 <= inject_Z (Z.of_nat k)) by (rewrite <- (Zle_Qle 0); lia).
  assert (E : f == inject_Z (Z.of_nat k)
                   * (inject_Z (Z.pos sr) / inject_Z (Z.of_nat n))).
  { subst f. field. split; lra. }
  rewrite E. split.
  - apply Qmult_le_0_compat; [exact Ha|].
    apply Qle_shift_div_l; [exact Hb|lra].
  - apply below_half; [exact Hb|exact Hs|].
    change 2 with (inject_Z 2). rewrite <- inject_Z_mult, <- Zlt_Qlt. lia.
Qed.

(** *** The chunk *)

Lemma np_multiply_same_length (a b : list Q) :
  length a = length b ->
  np_multiply a b = Ok (map (fun p => fst p * snd p) (combine a b)).
Proof. intros H. unfold np_multiply. now rewrite H, Nat.eqb_refl. Qed.

Lemma process_real_time_chunk_eq (chunk mag : list Q) (sr : positive) :
  chunk <> [] -> length mag = length chunk ->
  process_real_time_chunk chunk mag sr
  = Ok {| chunk_fft := Py.prefix mag (length mag / 2);
          chunk_energy := np_sum (map (fun s => s * s) chunk);
          spectral_centroid :=
            np_divide
              (np_sum
                 (map (fun p => fst p * snd p)
                    (combine
                       (map (fun k =>
                               inject_Z (Z.of_nat k)
                               * (1 / (inject_Z (Z.of_nat (length chunk))
                                       * (1 / inject_Z (Z.pos sr)))))
                            (seq 0 (length chunk / 2)))
                       (Py.prefix mag (length mag / 2)))))
              (np_sum (Py.prefix mag (length mag / 2))) |}.
Proof.
  intros Hne Hlen. unfold process_real_time_chunk.
  destruct chunk as [|s chunk']; [congruence|]. cbn [bind].
  set (chunk := s :: chunk') in *.
  assert (Hn : (1 <= length chunk)%nat) by (simpl; lia).
  rewrite length_fftfreq by exact Hn.
  rewrite fftfreq_half by exact Hn.
  rewrite np_multiply_same_length; [reflexivity|].
  unfold Py.prefix. rewrite length_map, length_seq, length_firstn, Hlen.
  assert (length chunk / 2 <= length chunk)%nat
    by (apply Nat.Div0.div_le_upper_bound; lia).
  lia.
Qed.

(** X10.  [process_real_time_chunk] returns the error dictionary on an empty
    chunk and a result on every non-empty one.  The result's [fft] field is
    the first half of the magnitudes, [len // 2] values; its energy is the
    sum of the squared samples, never negative, and 0 for a silent chunk. *)
Theorem chunk_outcome (chunk mag : list Q) (sr : positive) :
  length mag = length chunk ->
  (chunk = [] -> process_real_time_chunk chunk mag sr = Raise ValueError)
  /\ (chunk <> [] ->
      exists r, process_real_time_chunk chunk mag sr = Ok r
        /\ chunk_fft r = firstn (length chunk / 2) mag
        /\ length (chunk_fft r) = (length chunk / 2)%nat
        /\ chunk_energy r == fold_right Qplus 0 (map (fun s => s * s) chunk)
        /\ 0 <= chunk_energy r
        /\ (Forall (fun s => s == 0) chunk -> chunk_energy r == 0)).
Proof.
  intros Hlen. split; [intros ->; reflexivity|]. intros Hne.
  rewrite (process_real_time_chunk_eq chunk mag sr Hne Hlen).
  eexists. split; [reflexivity|]. cbn [chunk_fft chunk_energy].
  assert (Hhalf : (length chunk / 2 <= length chunk)%nat)
    by (apply Nat.Div0.div_le_upper_bound; lia).
  unfold Py.prefix. rewrite Hlen.
  split; [reflexivity|]. split; [rewrite length_firstn; lia|].
  split; [apply np_sum_right|].
  assert (Hsq : Forall (fun v => 0 <= v) (map (fun s => s * s) chunk)).
  { apply List.Forall_forall. intros v Hv.
    apply in_map_iff in Hv as (s & <- & _).
    destruct (Qlt_le_dec s 0).
    - assert (Es : s * s == (- s) * (- s)) by ring.
      rewrite Es. apply Qmult_le_0_compat; lra.
    - now apply Qmult_le_0_compat. }
  split.
  - rewrite np_sum_right. now apply sum_right_nonneg.
  - intros Hz. rewrite np_sum_right. apply sum_right_zero.
    apply List.Forall_forall. intros v Hv.
    apply in_map_iff in Hv as (s & <- & Hs).
    rewrite List.Forall_forall in Hz. rewrite (Hz s Hs). reflexivity.
Qed.

Lemma chunk_outcome_witness :
  length [2; 0; 2; 0] = length [1; 0; -1; 0]
  /\ exists r,
       process_real_time_chunk [1; 0; -1; 0] [2; 0; 2; 0] 4 = Ok r
       /\ chunk_fft r = [2; 0] /\ 0 <= chunk_energy r.
Proof.
  split; [reflexivity|].
  destruct (proj2 (chunk_outcome [1; 0; -1; 0] [2; 0; 2; 0] 4 eq_refl))
    as (r & Hr & Hfft & _ & _ & Hpos & _); [discriminate|].
  exists r. split; [exact Hr|]. split; [exact Hfft|exact Hpos].
Defined.

(** X11.  For a non-empty chunk with non-negative magnitudes, the spectral
    centroid of [process_real_time_chunk] is [nan] when the first half of
    the magnitudes is all zero (in particular for a silent chunk and for a
    chunk of one sample, whose first half is empty); otherwise it is a
    number in [[0, sr / 2)].  It is never infinite. *)
Theorem chunk_centroid (chunk mag : list Q) (sr : positive) (r : ChunkResult) :
  length mag = length chunk ->
  Forall (fun v => 0 <= v) mag ->
  process_real_time_chunk chunk mag sr = Ok r ->
  (Forall (fun v => v == 0) (firstn (length chunk / 2) mag) ->
     spectral_centroid r = NaN)
  /\ (length chunk = 1%nat -> spectral_centroid r = NaN)
  /\ (Exists (fun v => 0 < v) (firstn (length chunk / 2) mag) ->
      exists c, spectral_centroid r = Val c
        /\ 0 <= c /\ c < inject_Z (Z.pos sr) / 2).
Proof.
  intros Hlen Hpos Hr.
  assert (Hne : chunk <> []) by (intros ->; discriminate).
  rewrite (process_real_time_chunk_eq chunk mag sr Hne Hlen) in Hr.
  injection Hr as <-. cbn [spectral_centroid].
  unfold Py.prefix. rewrite Hlen.
  set (h := (length chunk / 2)%nat).
  set (F := map _ (seq 0 h)). set (M := firstn h mag).
  assert (HM : Forall (fun v => 0 <= v) M).
  { apply List.Forall_forall. intros v Hv. rewrite List.Forall_forall in Hpos.
    apply Hpos. subst M. rewrite <- (firstn_skipn h mag).
    apply in_or_app. now left. }
  assert (HF : Forall (fun f => 0 <= f /\ f < inject_Z (Z.pos sr) / 2) F).
  { apply List.Forall_forall. intros f Hf. subst F.
    apply in_map_iff in Hf as (k & <- & Hk). apply in_seq in Hk.
    apply bin_below_nyquist. subst h. lia. }
  assert (Hhalf : (h <= length chunk)%nat)
    by (apply Nat.Div0.div_le_upper_bound; lia).
  assert (HFM : length F = length M).
  { subst F M. rewrite length_map, length_seq, length_firstn. lia. }
  assert (Hnan : Forall (fun v => v == 0) M ->
            np_divide
              (np_sum (map (fun p => fst p * snd p) (combine F M)))
              (np_sum M) = NaN).
  { intros Hz. unfold np_divide.
    assert (E1 : Qeq_bool (np_sum M) 0 = true).
    { apply Qeq_bool_iff. rewrite np_sum_right. now apply sum_right_zero. }
    assert (E2 : Qeq_bool
                   (np_sum (map (fun p => fst p * snd p) (combine F M))) 0
                 = true).
    { apply Qeq_bool_iff. rewrite np_sum_right. now apply weighted_zero. }
    now rewrite E1, E2. }
  split; [exact Hnan|]. split.
  - intros H1. apply Hnan. subst M h. rewrite H1. constructor.
  - intros Hex.
    pose proof (sum_right_positive M HM Hex) as HS.
    unfold np_divide.
    assert (E1 : Qeq_bool (np_sum M) 0 = false).
    { destruct (Qeq_bool (np_sum M) 0) eqn:E; [|reflexivity].
      apply Qeq_bool_iff in E. rewrite np_sum_right in E. lra. }
    rewrite E1. eexists. split; [reflexivity|].
    rewrite !np_sum_right. split.
    + apply Qle_shift_div_l; [exact HS|].
      assert (E0 : 0 * fold_right Qplus 0 M == 0) by ring.
      rewrite E0.
      apply weighted_nonneg; [|exact HM].
      eapply List.Forall_impl; [|exact HF]. simpl. tauto.
    + apply Qlt_shift_div_r; [exact HS|].
      apply weighted_lt; auto.
      eapply List.Forall_impl; [|exact HF]. simpl. tauto.
Qed.

Lemma chunk_centroid_witness :
  exists r,
    process_real_time_chunk [1; 2; 3; 4; 5; 6] [1; 2; 3; 4; 3; 2] 6 = Ok r
    /\ exists c, spectral_centroid r = Val c
         /\ 0 <= c /\ c < inject_Z 6 / 2.
Proof.
  eexists. split; [reflexivity|].
  eapply (chunk_centroid [1; 2; 3; 4; 5; 6] [1; 2; 3; 4; 3; 2] 6).
  - reflexivity.
  - repeat constructor; discriminate.
  - reflexivity.
  - apply Exists_cons_hd. reflexivity.
Defined.

End StreamingFacts.

Module DetectionFacts.
Import Py PyFacts FrameEnergy FrameEnergyFacts Scipy PeakSpec ScipyFacts.
Import Classifier Report ReportFacts EnvelopeFacts EventFacts OutcomeFacts.
Import Detection.
Local Open Scope Q_scope.
Local Open Scope string_scope.
Local Arguments Nat.div _ _ : simpl never.

Lemma short_envelope_length (y : list Q) :
  (length y <= 1024)%nat -> (length (frame_energy y) < 3)%nat.
Proof.
  intros H. unfold frame_energy. rewrite length_frame_energy.
  unfold range_len, hop_length.
  destruct (Nat.eqb_spec (length y) 0); [lia|].
  pose proof (Nat.div_mod_eq (length y - 1) 512).
  pose proof (Nat.mod_upper_bound (length y - 1) 512 ltac:(lia)).
  lia.
Qed.

Lemma find_peaks_short (energy : list Q) :
  (length energy < 3)%nat -> find_peaks energy 0.2 5 = [].
Proof.
  intros H. destruct (find_peaks energy 0.2 5) as [|p ps] eqn:E; [reflexivity|].
  assert (Hp : In p (find_peaks energy 0.2 5)) by (rewrite E; now left).
  apply find_peaks_in_range in Hp. lia.
Qed.

(** X12.  A waveform of at most 1024 samples has fewer than three frames,
    so no peak is detected on it: every report either entry point returns
    for it has [detectedSounds = 0] and an empty event list. *)
Theorem short_recording_no_events (y : list Q) :
  (length y <= 1024)%nat ->
  detected_peaks y = []
  /\ (forall N sr T r, analyze_audio N y sr T = Ok r ->
        detectedSounds r = 0%nat /\ soundEvents r = [])
  /\ (forall N sr T r, generate_live_analysis N y sr T = Ok r ->
        detectedSounds r = 0%nat /\ soundEvents r = []).
Proof.
  intros Hshort.
  assert (Hnone : forall energy, normalize (frame_energy y) = Ok energy ->
                    find_peaks energy 0.2 5 = []).
  { intros energy Hn. apply find_peaks_short.
    destruct (normalize_bounds _ _ (frame_energy_nonneg _ _ y) Hn) as [Hl _].
    fold (frame_energy y) in Hl. rewrite Hl. now apply short_envelope_length. }
  split; [|split].
  - unfold detected_peaks.
    destruct (normalize (frame_energy y)) as [energy|] eqn:E; [|reflexivity].
    now apply Hnone.
  - intros N sr T r Hr.
    apply analyze_audio_inv in Hr
      as (energy & db & evs & spec & E1 & _ & E3 & _ & Hn & _ & Hev & _).
    rewrite (Hnone energy E1) in *. cbn in E3. injection E3 as <-.
    now rewrite Hn, Hev.
  - intros N sr T r Hr.
    apply generate_live_analysis_inv in Hr
      as (energy & db & evs & spec & E1 & E3 & _ & _ & Hn & _ & Hev & _).
    rewrite (Hnone energy E1) in *. cbn in E3. injection E3 as <-.
    now rewrite Hn, Hev.
Qed.

Lemma short_recording_no_events_witness :
  (length (repeat 1 1024) <= 1024)%nat
  /\ detected_peaks (repeat 1 1024) = [].
Proof.
  assert (H : (length (repeat 1 1024) <= 1024)%nat)
    by (rewrite repeat_length; lia).
  split; [exact H|].
  exact (proj1 (short_recording_no_events (repeat 1 1024) H)).
Defined.

(** X13.  The loudest candidate is never suppressed: for every flat peak of
    value at least 0.2 in the envelope, the Peak Picker returns a peak that
    is at least as high; in particular it returns at least one peak as soon
    as the envelope has such a flat peak. *)
Theorem loudest_peak_detected (energy : list Q) (c : nat) :
  flat_peak energy c -> 0.2 <= nth c energy 0 ->
  find_peaks energy 0.2 5 <> []
  /\ exists p, In p (find_peaks energy 0.2 5)
       /\ nth c energy 0 <= nth p energy 0.
Proof.
  intros Hc Hh.
  assert (Hex : exists p, In p (find_peaks energy 0.2 5)
                  /\ nth c energy 0 <= nth p energy 0).
  { destruct (in_dec Nat.eq_dec c (find_peaks energy 0.2 5)) as [Hin|Hnot].
    - exists c. split; [exact Hin|apply Qle_refl].
    - destruct (find_peaks_spec energy 0.2 5) as (_ & _ & _ & Hnms).
      destruct (Hnms c Hc Hh Hnot) as (p & Hp & _ & Hcmp).
      exists p. split; [exact Hp|].
      destruct Hcmp as [Hlt|[Heq _]]; [now apply Qlt_le_weak|].
      rewrite Heq. apply Qle_refl. }
  split; [|exact Hex].
  destruct Hex as (p & Hp & _). intros E. rewrite E in Hp. destruct Hp.
Qed.

Lemma loudest_peak_detected_witness :
  flat_peak [0; 0.5; 0; 1; 0] 1
  /\ exists p, In p (find_peaks [0; 0.5; 0; 1; 0] 0.2 5)
       /\ nth 1 [0; 0.5; 0; 1; 0] 0 <= nth p [0; 0.5; 0; 1; 0] 0.
Proof.
  assert (H : flat_peak [0; 0.5; 0; 1; 0] 1).
  { exists 1%nat, 1%nat. repeat split; try (simpl; lia).
    intros k Hk. replace k with 1%nat by lia. reflexivity. }
  split; [exact H|].
  apply (loudest_peak_detected [0; 0.5; 0; 1; 0] 1 H). discriminate.
Defined.

(** X14.  When the clamped index of a peak falls outside the zero-crossing
    array, the Extended variant takes the rate 0; the event is then never
    labelled "Percussive/Transient", and a centroid below 3000 is labelled
    "Low Frequency/Bass" or "Voice/Speech". *)
Theorem missing_zcr_label (T : Transform) (p : nat) (c ro z : Q) :
  align_live T p = Ok (c, ro, z) ->
  (length (zcr T) <= Nat.min p (length (spectral_centroids T) - 1))%nat ->
  z = 0%Q
  /\ fst (classify_extended c ro z) <> "Percussive/Transient"
  /\ (c < 3000 ->
      fst (classify_extended c ro z) = "Low Frequency/Bass"
      \/ fst (classify_extended c ro z) = "Voice/Speech").
Proof.
  intros Ha Hz.
  assert (Hz0 : z = 0%Q).
  { destruct (align_live_cases T p) as [(Hc & Hr & _)|[_ Hraise]];
      [|congruence].
    unfold align_live in Ha.
    destruct (frame_index_clamp p _ Hc) as [Hidx Hlt]. rewrite Hidx in Ha.
    rewrite (index_in_range _ _ 0%Q Hlt), (index_in_range _ _ 0%Q Hr) in Ha.
    cbn [bind] in Ha. rewrite zcr_at_spec in Ha. cbn [bind] in Ha.
    destruct (Nat.ltb_spec (Nat.min p (length (spectral_centroids T) - 1))
                (length (zcr T))); [lia|].
    congruence. }
  subst z. split; [reflexivity|].
  unfold classify_extended.
  assert (E1 : Qltb 0.15 0 = false) by reflexivity.
  assert (E2 : Qltb 0 0.1 = true) by reflexivity.
  rewrite E1, E2.
  split.
  - destruct (Qltb c 1000 && Qltb ro 2000); [discriminate|].
    destruct (Qltb c 3000 && true); [discriminate|].
    destruct (Qltb 4000 c && Qltb 8000 ro); discriminate.
  - intros Hc. apply Qltb_lt in Hc. rewrite Hc.
    destruct (Qltb c 1000 && Qltb ro 2000); simpl; auto.
Qed.

Lemma missing_zcr_label_witness :
  align_live Samples.ragged_transform 5 = Ok (400, 4000, 0)%Q
  /\ fst (classify_extended 400 4000 0) <> "Percussive/Transient".
Proof.
  assert (H : align_live Samples.ragged_transform 5 = Ok (400, 4000, 0)%Q)
    by reflexivity.
  split; [exact H|].
  apply (missing_zcr_label Samples.ragged_transform 5 400 4000 0 H).
  simpl. lia.
Defined.

End DetectionFacts.
